(** * gems_compute_atlas_probs: mesh node probabilities from labelled volumes

    A shallow embedding of [samseg/cli/gems_compute_atlas_probs.py].

    Conventions.
    - numpy integer arrays hold [Z]; a store into a [uint16] array and
      the [uint64] accumulator of [np.sum] have their wrap-around
      written out ([uint16], [uint64]).
    - The segmentation image comes from [get_fdata()] as float64 holding
      integer label values; a voxel is the [Z] it holds, on which
      [1 - v] and [v * 65535] are exact.  The store of such a float64
      into the uint16 array converts it to an integer and keeps its low
      16 bits: [f64_to_u16].
    - Alphas are float64; they are idealised as exact rationals [Q].
    - Node coordinates are float64; only additions are applied to them,
      so they live in an arbitrary type with an addition. *)

From Stdlib Require Import ZArith QArith Lia.
From stdpp Require Import base option list numbers strings sorting.

Local Open Scope Z_scope.

(** ** numpy scalars *)


Definition uint16 (z : Z) : Z := z mod 2 ^ 16.
Definition uint64 (z : Z) : Z := z mod 2 ^ 64.

(** float64 -> uint16 in a store into a uint16 array, for a float64
    holding the integer [x]: the low 16 bits of [x] are kept (a voxel 17
    in binary mode is stored as 16 and 65519). *)
Definition f64_to_u16 (x : Z) : Z := x mod 2 ^ 16.

(** A Python bool used as a number. *)
Definition bool_to_int (b : bool) : Z := if b then 1 else 0.

(** ** 3-D arrays, axis by axis *)

Abbreviation Vol A := (list (list (list A))) (only parsing).

Definition vget {A} (v : Vol A) (x y z : nat) : option A :=
  r ← v !! x; c ← r !! y; c !! z.

Definition vmap {A B} (f : A → B) (v : Vol A) : Vol B :=
  fmap (M:=list) (fmap (M:=list) (fmap (M:=list) f)) v.

Definition vzip_with {A B C} (f : A → B → C) (a : Vol A) (b : Vol B) : Vol C :=
  zip_with (zip_with (zip_with f)) a b.

(** ** Outcome of a run: what was written, then an error or a value *)

(** Where the script stops.  [ShapeMismatch] is the error the
    specification gives the Deformation Applier;
    [UnboundLocalError_nib] is the use of [nib], which the import under
    [if args.save_figs] makes a local of main, when that import did not
    run. *)
Inductive Abort : Type :=
| TypeError_NoneType_not_iterable
| TypeError_path_is_None
| IndexError_level
| IndexError_subject
| ShapeMismatch
| ValueError_broadcast
| NameError_segmentation_image
| UnboundLocalError_nib.

(** The data the script writes.  The creation of the output directory,
    the header of the log, the timings and the console prints carry no
    data of the computation and are left out. *)
Inductive Event : Type :=
| WriteSubject (subject : string)
| WriteLabel (label : Z)
| LogSubject (level subject_number number_of_subjects : nat) (subject_dir : string)
| ShowFigure (images : Vol (list Q))
| SaveSubjectFigure (level subject_number : nat) (images : Vol (list Q))
| SaveAverageFigure (level : nat) (images : Vol (list Q))
| SaveStatistics (level : nat) (statistics : list (list (list Q)))
| LogDone.

Definition Run (A : Type) : Type := list Event * (Abort + A).

Definition raise {A} (e : Abort) : Run A := ([], inl e).
Definition emit (ev : Event) : Run unit := ([ev], inr tt).
Definition lift {A} (r : Abort + A) : Run A := ([], r).

Definition from_option {A} (e : Abort) (o : option A) : Abort + A :=
  match o with Some a => inr a | None => inl e end.

#[global] Instance run_ret : MRet Run := λ A a, ([], inr a).

(** Sequencing: the writes of both parts in order; an error stops the
    run and keeps what was written before it. *)
#[global] Instance run_bind : MBind Run := λ A B k m,
  match m with
  | (tr, inl e) => (tr, inl e)
  | (tr, inr a) => let '(tr', r) := k a in (tr ++ tr', r)
  end.

(** [for x in l: body x], for its writes only. *)
Fixpoint for_each {A} (l : list A) (body : A → Run unit) : Run unit :=
  match l with
  | [] => mret tt
  | x :: rest => body x;; for_each rest body
  end.

(** ** Command line (parseArguments, lines 25-46) *)

(** What the user typed: an option that was not given is [None], a
    [store_true] flag is present or not. *)
Record CommandLine : Type := {
  given_subjects_dir : string;
  given_mesh_collections : list string;
  given_out_dir : string;
  given_segmentations_dir : option string;
  given_gt_from_FS : bool;
  given_segmentation_name : option string;
  given_multi_structure : bool;
  given_labels : option (list Z);
  given_from_samseg : bool;
  given_EM_iterations : option Z;
  given_show_figs : bool;
  given_save_figs : bool;
  given_save_average_figs : bool;
  given_subjects_file : option string;
  given_labels_file : option string;
  given_samseg_subdir : option string
}.

Record Args : Type := {
  subjects_dir : string;
  mesh_collections : list string;
  out_dir : string;
  segmentations_dir : option string;
  gt_from_FS : bool;
  segmentation_name : string;
  multi_structure : bool;
  labels : option (list Z);
  from_samseg : bool;
  EM_iterations : Z;
  show_figs : bool;
  save_figs : bool;
  save_average_figs : bool;
  subjects_file : option string;
  labels_file : option string;
  samseg_subdir : string
}.

Definition parseArguments (cl : CommandLine) : Args := {|
  subjects_dir := given_subjects_dir cl;
  mesh_collections := given_mesh_collections cl;
  out_dir := given_out_dir cl;
  segmentations_dir := given_segmentations_dir cl;
  gt_from_FS := given_gt_from_FS cl;
  segmentation_name := default "aseg.mgz"%string (given_segmentation_name cl);
  multi_structure := given_multi_structure cl;
  labels := given_labels cl;
  from_samseg := given_from_samseg cl;
  EM_iterations := default 10 (given_EM_iterations cl);
  show_figs := given_show_figs cl;
  save_figs := given_save_figs cl;
  save_average_figs := given_save_average_figs cl;
  subjects_file := given_subjects_file cl;
  labels_file := given_labels_file cl;
  samseg_subdir := default "samseg"%string (given_samseg_subdir cl)
|}.

(** ** Labels and number of classes (main, lines 85-106) *)

Module Labels.

(** The labels file as the integers of each of its lines
    ([int(item) for item in line.split()]). *)
Definition read_labels (lines : list (list Z)) : list Z :=
  foldl (λ labels line, foldl (λ labels item, labels ++ [item]) labels line) [] lines.

Definition select (args : Args) (labels_file_lines : string → list (list Z))
  : option (list Z) :=
  match labels_file args with
  | None => labels args
  | Some file => Some (read_labels (labels_file_lines file))
  end.

(** [for label in labels: f.write(str(label) + "\n")]: iterating over
    [None] raises. *)
Definition write (labels : option (list Z)) : Run (list Z) :=
  match labels with
  | None => raise TypeError_NoneType_not_iterable
  | Some ls => for_each ls (λ label, emit (WriteLabel label));; mret ls
  end.

Definition number_of_classes (multi_structure : bool) (labels : list Z) : nat :=
  if multi_structure then (length labels + 1)%nat else 2%nat.

End Labels.


(** ** Label Encoder (main, lines 178-188) *)

Module Encoder.

(** [np.zeros([sx, sy, sz, number_of_classes], np.uint16)], the spatial
    shape being that of the segmentation image. *)
Definition np_zeros_u16 (segmentation_image : Vol Z) (number_of_classes : nat)
  : Vol (list Z) :=
  vmap (λ _, replicate number_of_classes 0) segmentation_image.

(** [(segmentation_image == label) * 65535], an int64 array. *)
Definition eq_times_65535 (segmentation_image : Vol Z) (label : Z) : Vol Z :=
  vmap (λ v, bool_to_int (v =? label) * 65535) segmentation_image.

(** [segmentation_map[:, :, :, k] = rhs] for an integer [rhs]: the
    store converts to uint16 by wrap-around. *)
Definition assign_channel_int (k : nat) (rhs : Vol Z) (m : Vol (list Z))
  : Vol (list Z) :=
  vzip_with (λ cs v, <[k := uint16 v]> cs) m rhs.

(** [segmentation_map[:, :, :, k] = rhs] for a float64 [rhs]. *)
Definition assign_channel_f64 (k : nat) (rhs : Vol Z) (m : Vol (list Z))
  : Vol (list Z) :=
  vzip_with (λ cs v, <[k := f64_to_u16 v]> cs) m rhs.

(** [for label_number, label in enumerate(labels)] from [label_number]. *)
Fixpoint fill_label_channels (segmentation_image : Vol Z) (label_number : nat)
    (labels : list Z) (m : Vol (list Z)) : Vol (list Z) :=
  match labels with
  | [] => m
  | label :: rest =>
      fill_label_channels segmentation_image (S label_number) rest
        (assign_channel_int (label_number + 1)
           (eq_times_65535 segmentation_image label) m)
  end.

(** [np.sum] of uint16 values: the accumulator is uint64. *)
Definition np_sum_u64 (l : list Z) : Z :=
  foldl (λ acc x, uint64 (acc + x)) 0 l.

(** [65535 - np.sum(segmentation_map[:, :, :, 1:], axis=3)], a uint64
    array: the subtraction is unsigned. *)
Definition background_rhs (m : Vol (list Z)) : Vol Z :=
  vmap (λ cs, uint64 (65535 - np_sum_u64 (drop 1 cs))) m.

Definition segmentation_map (multi_structure : bool) (labels : list Z)
    (number_of_classes : nat) (segmentation_image : Vol Z)
  : Vol (list Z) :=
  let m0 := np_zeros_u16 segmentation_image number_of_classes in
  if multi_structure then
    let m1 := fill_label_channels segmentation_image 0 labels m0 in
    assign_channel_int 0 (background_rhs m1) m1
  else
    let m1 :=
      assign_channel_f64 0 (vmap (λ v, (1 - v) * 65535) segmentation_image) m0 in
    assign_channel_f64 1 (vmap (λ v, v * 65535) segmentation_image) m1.

End Encoder.

(** ** Deformation Applier (main, lines 164-175) *)

Module Deformation.
Section Coordinates.
Context {F : Type} (fadd : F → F → F) (of_int : Z → F).

Definition add_point (p q : F * F * F) : F * F * F :=
  (fadd p.1.1 q.1.1, fadd p.1.2 q.1.2, fadd p.2 q.2).

(** Modelled from the spec: the node positions returned by
    [ProbabilisticAtlas.getMesh] of the samseg package, whose code lies
    outside the script.  The specification gives them as
    reference + displacement, failing with [ShapeMismatch] when the
    displacement count differs from the node count. *)
Definition getMesh_points (reference initialDeformation : list (F * F * F))
  : Abort + list (F * F * F) :=
  if decide (length initialDeformation = length reference)
  then inr (zip_with add_point reference initialDeformation)
  else inl ShapeMismatch.

(** [node_positions += [slc.start for slc in cropping]]: the three
    slice starts are broadcast over the rows. *)
Definition add_cropping (node_positions : list (F * F * F)) (cropping : Z * Z * Z)
  : list (F * F * F) :=
  (λ p, add_point p (of_int cropping.1.1, of_int cropping.1.2, of_int cropping.2))
    <$> node_positions.

Definition node_positions (reference deformations : list (F * F * F))
    (cropping : Z * Z * Z) : Abort + list (F * F * F) :=
  match getMesh_points reference deformations with
  | inl e => inl e
  | inr points => inr (add_cropping points cropping)
  end.
End Coordinates.
End Deformation.

(** ** Atlas Aggregator (main, lines 129, 131, 208, 210-227) *)

Module Aggregator.

(** [np.zeros([number_of_nodes, number_of_classes, number_of_subjects])] *)
Definition np_zeros (number_of_nodes number_of_classes number_of_subjects : nat)
  : list (list (list Q)) :=
  replicate number_of_nodes (replicate number_of_classes (replicate number_of_subjects 0%Q)).

Definition same_shape (statistics : list (list (list Q))) (alphas : list (list Q)) : Prop :=
  Forall2 (λ row a, length row = length a) statistics alphas.

#[global] Instance same_shape_dec statistics alphas :
  Decision (same_shape statistics alphas).
Proof. unfold same_shape. apply _. Defined.

(** The index [subject_number] lies within the third axis (as far as
    the array has entries to tell its extent). *)
Definition within_third_axis (statistics : list (list (list Q))) (subject_number : nat)
  : Prop :=
  Forall (Forall (λ over_subjects, (subject_number < length over_subjects)%nat))
    statistics.

#[global] Instance within_third_axis_dec statistics subject_number :
  Decision (within_third_axis statistics subject_number).
Proof. unfold within_third_axis. apply _. Defined.

(** [label_statistics_in_mesh_nodes[:, :, subject_number] = mesh.alphas.copy()].
    An index beyond the third axis raises.  The alphas are what main
    passes, [mesh.alphas], with one row per node of the mesh and one
    column per class; alphas of any other shape are refused here (numpy
    refuses them too, unless they have a single row or a single column,
    which it repeats). *)
Definition store_subject (statistics : list (list (list Q))) (subject_number : nat)
    (alphas : list (list Q)) : Abort + list (list (list Q)) :=
  if decide (within_third_axis statistics subject_number) then
    if decide (same_shape statistics alphas)
    then inr (zip_with (zip_with (λ over_subjects a, <[subject_number := a]> over_subjects))
                statistics alphas)
    else inl ValueError_broadcast
  else inl IndexError_subject.

Definition sumQ (l : list Q) : Q := foldr Qplus 0%Q l.

(** [np.mean] of a vector, in exact arithmetic.  Of an empty vector
    numpy gives nan where this gives 0; main meets the case only with
    no subject, and then stops on the next line, where
    [segmentation_image] is not bound. *)
Definition np_mean (l : list Q) : Q := (sumQ l / inject_Z (Z.of_nat (length l)))%Q.

(** [np.mean(label_statistics_in_mesh_nodes, axis=2)] *)
Definition np_mean_axis2 (statistics : list (list (list Q))) : list (list Q) :=
  fmap (M:=list) (fmap (M:=list) np_mean) statistics.

Section Level.
(** What the loop body leaves behind besides the alphas (the node
    positions given to the mesh and the segmentation image). *)
Context {X : Type}.
(** Lines 133-205 for one subject: all that precedes the store. *)
Variable body : nat → string → Run (list (list Q) * X).
(** [mesh.rasterize(segmentation_image.shape) / 65535] without its
    background channel, for the mesh carrying the given alphas. *)
Variable render : option X → list (list Q) → Abort + Vol (list Q).

Fixpoint subject_loop (subject_number : nat) (subject_list : list string)
    (st : list (list (list Q)) * list (list Q) * option X)
  : Run (list (list (list Q)) * list (list Q) * option X) :=
  match subject_list with
  | [] => mret st
  | subject_dir :: rest =>
      r ← body subject_number subject_dir;
      statistics ← lift (store_subject st.1.1 subject_number r.1);
      subject_loop (S subject_number) rest (statistics, r.1, Some r.2)
  end.

(** Lines 210-227. *)
Definition epilogue (show_figs save_average_figs : bool) (level : nat)
    (st : list (list (list Q)) * list (list Q) * option X) : Run (list (list Q)) :=
  a1 ← (if show_figs then
          let a := np_mean_axis2 st.1.1 in
          images ← lift (render st.2 a);
          emit (ShowFigure images);; mret a
        else mret st.1.2);
  a2 ← (if save_average_figs then
          let a := np_mean_axis2 st.1.1 in
          images ← lift (render st.2 a);
          emit (SaveAverageFigure (level + 1) images);; mret a
        else mret a1);
  emit (SaveStatistics (level + 1) st.1.1);;
  mret a2.

(** One resolution level; the result is [mesh.alphas] at its end. *)
Definition level_loop (show_figs save_average_figs : bool) (level : nat)
    (number_of_nodes number_of_classes : nat) (subject_list : list string)
    (mesh_alphas : list (list Q)) : Run (list (list Q)) :=
  let label_statistics_in_mesh_nodes :=
    np_zeros number_of_nodes number_of_classes (length subject_list) in
  st ← subject_loop 0 subject_list (label_statistics_in_mesh_nodes, mesh_alphas, None);
  epilogue show_figs save_average_figs level st.
End Level.

End Aggregator.

(** ** EM Fitter *)

Module EM.

Inductive Step : Type := E_step | M_step.

Section Fitter.
Context {Geometry Target Prediction : Type}.
(** The forward rasterization of the current alphas. *)
Variable e_step : Geometry → list (list Q) → Prediction.
(** The re-estimation of every node's alphas from the target. *)
Variable m_step : Geometry → Target → Prediction → list (list Q) → list (list Q).

(** Modelled from the spec: the flat prior of the fitter, 1/C for each
    of the C classes at every node ([mesh.fit_alphas] is missing). *)
Definition uniform (number_of_nodes number_of_classes : nat) : list (list Q) :=
  replicate number_of_nodes
    (replicate number_of_classes (1 / inject_Z (Z.of_nat number_of_classes))%Q).

(** Modelled from the spec: the loop of the fitter, one E-step and one
    M-step per unit of budget ([mesh.fit_alphas] is missing). *)
Fixpoint iterate (budget : nat) (geometry : Geometry) (target : Target)
    (alphas : list (list Q)) : list Step * list (list Q) :=
  match budget with
  | O => ([], alphas)
  | S budget' =>
      let prediction := e_step geometry alphas in
      let alphas' := m_step geometry target prediction alphas in
      let '(steps, final) := iterate budget' geometry target alphas' in
      (E_step :: M_step :: steps, final)
  end.

(** Modelled from the spec: [mesh.fit_alphas(segmentation_map,
    EM_iterations)] of the gems binding, whose code lies outside the
    script.  The specification initialises every node to the
    uniform distribution and alternates E-step and M-step exactly
    [EM_iterations] times without a convergence check.  The steps run
    are recorded next to the fitted alphas. *)
Definition fit_alphas (number_of_nodes number_of_classes : nat)
    (geometry : Geometry) (target : Target) (EM_iterations : Z)
  : list Step * list (list Q) :=
  iterate (Z.to_nat EM_iterations) geometry target
    (uniform number_of_nodes number_of_classes).

(** Line 192: the budget is the parsed [--EM-iterations]. *)
Definition fit_subject (args : Args) (number_of_nodes number_of_classes : nat)
    (geometry : Geometry) (target : Target) : list Step * list (list Q) :=
  fit_alphas number_of_nodes number_of_classes geometry target (EM_iterations args).
End Fitter.

End EM.

(** ** main (lines 49-233) *)

(** [segmentation_image.shape] *)
Definition shape {A} (v : Vol A) : nat * nat * nat :=
  let plane := default [] (head v) in
  (length v, length plane, length (default [] (head plane))).

(** [rasterized_prior = mesh.rasterize(...) / 65535] followed by
    [rasterized_prior[:, :, :, 1:]]. *)
Definition prior_without_background (rasterized : Vol (list Z)) : Vol (list Q) :=
  vmap (λ cs, drop 1 ((λ c, (inject_Z c / 65535)%Q) <$> cs)) rasterized.

(** The order in which Python sorts strings. *)
Definition string_le (a b : string) : Prop := String.leb a b = true.

#[global] Instance string_le_dec a b : Decision (string_le a b).
Proof. unfold string_le. apply _. Defined.

Section Main.
Context {F Transform ModelK : Type} (fadd : F → F → F) (of_int : Z → F).

(** [history.p], as far as main reads it. *)
Record History : Type := {
  modelSpecifications_K : ModelK;
  transform : Transform;
  deformation : list (list (F * F * F));
  cropping : Z * Z * Z
}.

(** The files the script reads and the samseg calls it makes.  Files
    named on the command line are taken to exist and to be well
    formed; paths are kept as their components. *)
Record World : Type := {
  subjects_file_lines : string → list string;
  listdir_directories : string → list string;
  labels_file_lines : string → list (list Z);
  point_count : string → nat;
  alphas_in_file : string → list (list Q);
  reference_points : string → Transform → ModelK → list (F * F * F);
  nib_load : list string → Vol Z;
  load_history : list string → History;
  fit_alphas : string → list (F * F * F) → Vol (list Z) → Z → list (list Q);
  rasterize : string → list (F * F * F) → list (list Q) → nat * nat * nat → Vol (list Z)
}.

Variable w : World.

(** Lines 63-72. *)
Definition subject_list (args : Args) : list string :=
  merge_sort string_le
    match subjects_file args with
    | Some file => subjects_file_lines w file
    | None => listdir_directories w (subjects_dir args)
    end.

(** Lines 145-152.  [nib] is bound in main only by the import of lines
    60-61, under [if args.save_figs].  With [--gt-from-FS] the path is
    joined on line 146, before [nib] is used on line 148; otherwise
    line 151 looks [nib] up before it joins the path. *)
Definition load_segmentation (args : Args) (subject_dir : string) : Abort + Vol Z :=
  if gt_from_FS args then
    match segmentations_dir args with
    | None => inl TypeError_path_is_None
    | Some segdir =>
        if save_figs args
        then inr (nib_load w [segdir; subject_dir; "mri"%string; segmentation_name args])
        else inl UnboundLocalError_nib
    end
  else
    if save_figs args then
      match segmentations_dir args with
      | None => inl TypeError_path_is_None
      | Some segdir => inr (nib_load w [segdir; subject_dir; segmentation_name args])
      end
    else inl UnboundLocalError_nib.

(** Lines 133-205: one subject at one level, up to the fitted alphas. *)
Definition subject_body (args : Args) (labels : list Z) (number_of_classes : nat)
    (number_of_subjects level : nat) (mesh_collection_file : string)
    (subject_number : nat) (subject_dir : string)
  : Run (list (list Q) * (list (F * F * F) * Vol Z)) :=
  emit (LogSubject (level + 1) (subject_number + 1) number_of_subjects subject_dir);;
  segmentation_image ← lift (load_segmentation args subject_dir);
  let history :=
    load_history w (if from_samseg args
                    then [subjects_dir args; subject_dir; "mri"%string;
                          samseg_subdir args; "history.p"%string]
                    else [subjects_dir args; subject_dir; "history.p"%string]) in
  deformations ← lift (from_option IndexError_level (deformation history !! level));
  node_positions ← lift (Deformation.node_positions fadd of_int
                           (reference_points w mesh_collection_file
                              (transform history) (modelSpecifications_K history))
                           deformations (cropping history));
  let segmentation_map :=
    Encoder.segmentation_map (multi_structure args) labels number_of_classes
      segmentation_image in
  let alphas :=
    fit_alphas w mesh_collection_file node_positions segmentation_map
      (EM_iterations args) in
  (if show_figs args then
     let rasterized_prior :=
       prior_without_background
         (rasterize w mesh_collection_file node_positions alphas
            (shape segmentation_image)) in
     emit (ShowFigure rasterized_prior)
   else mret tt);;
  (if save_figs args then
     let rasterized_prior :=
       prior_without_background
         (rasterize w mesh_collection_file node_positions alphas
            (shape segmentation_image)) in
     emit (SaveSubjectFigure (level + 1) (subject_number + 1) rasterized_prior)
   else mret tt);;
  mret (alphas, (node_positions, segmentation_image)).

(** The rasterization of lines 213 and 221: [segmentation_image] is
    bound only once a subject has been read. *)
Definition render (mesh_collection_file : string)
    (last : option (list (F * F * F) * Vol Z)) (alphas : list (list Q))
  : Abort + Vol (list Q) :=
  match last with
  | None => inl NameError_segmentation_image
  | Some (node_positions, segmentation_image) =>
      inr (prior_without_background
             (rasterize w mesh_collection_file node_positions alphas
                (shape segmentation_image)))
  end.

(** [for level, mesh_collection_file in enumerate(args.mesh_collections)] *)
Fixpoint levels (args : Args) (labels : list Z) (number_of_classes : nat)
    (subjects : list string) (level : nat) (mesh_collections : list string)
  : Run unit :=
  match mesh_collections with
  | [] => mret tt
  | mesh_collection_file :: rest =>
      Aggregator.level_loop
        (subject_body args labels number_of_classes (length subjects) level
           mesh_collection_file)
        (render mesh_collection_file)
        (show_figs args) (save_average_figs args) level
        (point_count w mesh_collection_file) number_of_classes subjects
        (alphas_in_file w mesh_collection_file);;
      levels args labels number_of_classes subjects (S level) rest
  end.

Definition main (cl : CommandLine) : Run unit :=
  let args := parseArguments cl in
  let subjects := subject_list args in
  for_each subjects (λ subject, emit (WriteSubject subject));;
  labels ← Labels.write (Labels.select args (labels_file_lines w));
  let number_of_classes := Labels.number_of_classes (multi_structure args) labels in
  levels args labels number_of_classes subjects 0 (mesh_collections args);;
  emit LogDone.
End Main.

(** ** Vocabulary of the statements *)

(** The Label Encoder as main runs it: the map of lines 178-188 with
    the number of classes of lines 103-106. *)
Definition label_encoder (multi_structure : bool) (labels : list Z)
    (segmentation_image : Vol Z) : Vol (list Z) :=
  Encoder.segmentation_map multi_structure labels
    (Labels.number_of_classes multi_structure labels) segmentation_image.

Definition sumZ (l : list Z) : Z := foldr Z.add 0 l.

(** The indicator that a voxel carries a label. *)
Definition indicator (v label : Z) : Z := bool_to_int (v =? label).

(** How many entries of the label list a voxel matches. *)
Definition matches (v : Z) (labels : list Z) : nat :=
  length (filter (λ label, label = v) labels).

(** The channel vector the multi-structure branch leaves at a voxel. *)
Fixpoint fill_voxel (v : Z) (label_number : nat) (labels : list Z) (cs : list Z)
  : list Z :=
  match labels with
  | [] => cs
  | label :: rest =>
      fill_voxel v (S label_number) rest
        (<[(label_number + 1)%nat := uint16 (bool_to_int (v =? label) * 65535)]> cs)
  end.

Definition voxel_multi (labels : list Z) (number_of_classes : nat) (v : Z) : list Z :=
  let cs := fill_voxel v 0 labels (replicate number_of_classes 0) in
  <[0%nat := uint16 (uint64 (65535 - Encoder.np_sum_u64 (drop 1 cs)))]> cs.

(** The channel vector the binary branch leaves at a voxel. *)
Definition voxel_binary (number_of_classes : nat) (v : Z) : list Z :=
  <[1%nat := f64_to_u16 (v * 65535)]>
    (<[0%nat := f64_to_u16 ((1 - v) * 65535)]> (replicate number_of_classes 0)).

(** Entry [n, c] of an alphas array, the vector over the subjects at
    [n, c] of the statistics, and its entry for subject [i]. *)
Definition entry (alphas : list (list Q)) (n c : nat) : option Q :=
  row ← alphas !! n; row !! c.

Definition cell (statistics : list (list (list Q))) (n c : nat) : option (list Q) :=
  row ← statistics !! n; row !! c.

Definition stored (statistics : list (list (list Q))) (n c i : nat) : option Q :=
  over_subjects ← cell statistics n c; over_subjects !! i.

(** An array of [N x C x S] numbers. *)
Definition has_shape (N C S : nat) (statistics : list (list (list Q))) : Prop :=
  length statistics = N
  ∧ Forall (λ row, length row = C ∧ Forall (λ over_subjects, length over_subjects = S) row)
      statistics.

(** The alpha vector of subject [i] at a node: [statistics[n, :, i]]
    for the row [statistics[n]]. *)
Definition subject_vector (row : list (list Q)) (i : nat) : list Q :=
  (λ over_subjects, default 0%Q (over_subjects !! i)) <$> row.

(** Two subjects on a mesh of one node, for two classes. *)
Definition two_subjects (subject_number : nat) (subject_dir : string)
  : Run (list (list Q) * unit) :=
  mret (match subject_number with O => [[1%Q; 0%Q]] | _ => [[0%Q; 1%Q]] end, tt).

Definition blank_figure (last : option unit) (alphas : list (list Q))
  : Abort + Vol (list Q) := inr [].

(** A small world: two subject directories, a mesh of one node, a
    volume of two voxels. *)
Definition small_world : World (F:=Z) (Transform:=unit) (ModelK:=unit) := {|
  subjects_file_lines := λ _, [];
  listdir_directories := λ _, ["sub02"; "sub01"]%string;
  labels_file_lines := λ _, [[10; 20]];
  point_count := λ _, 1%nat;
  alphas_in_file := λ _, [[(1 # 2)%Q; (1 # 2)%Q]];
  reference_points := λ _ _ _, [(0, 0, 0)];
  nib_load := λ _, [[[0; 1]]];
  load_history := λ _,
    {| modelSpecifications_K := tt; transform := tt;
       deformation := [[(1, 1, 1)]; [(2, 2, 2)]]; cropping := (5, 6, 7) |};
  fit_alphas := λ _ _ _ _, [[(1 # 4)%Q; (3 # 4)%Q]];
  rasterize := λ _ _ _ _, []
|}.

(** Equality of alphas as rational numbers. *)
Definition alphas_equiv (a b : list (list Q)) : Prop := Forall2 (Forall2 Qeq) a b.

(** A command line giving the three required options and nothing else. *)
Definition required_only : CommandLine := {|
  given_subjects_dir := "subjects";
  given_mesh_collections := ["atlas_level1.txt.gz"; "atlas_level2.txt.gz"]%string;
  given_out_dir := "out";
  given_segmentations_dir := None;
  given_gt_from_FS := false;
  given_segmentation_name := None;
  given_multi_structure := false;
  given_labels := None;
  given_from_samseg := false;
  given_EM_iterations := None;
  given_show_figs := false;
  given_save_figs := false;
  given_save_average_figs := false;
  given_subjects_file := None;
  given_labels_file := None;
  given_samseg_subdir := None
|}.

(** What a run has written, destination by destination: the lines of
    [subjects.txt], of [labels.txt], the subject lines of the log and
    the statistics arrays saved. *)
Definition subjects_written (tr : list Event) : list string :=
  omap (λ ev, match ev with WriteSubject subject => Some subject | _ => None end) tr.

Definition labels_written (tr : list Event) : list Z :=
  omap (λ ev, match ev with WriteLabel label => Some label | _ => None end) tr.

Definition log_lines (tr : list Event) : list (nat * nat * nat * string) :=
  omap (λ ev, match ev with
              | LogSubject level subject_number number_of_subjects subject_dir =>
                  Some (level, subject_number, number_of_subjects, subject_dir)
              | _ => None
              end) tr.

Definition statistics_saved (tr : list Event) : list (nat * list (list (list Q))) :=
  omap (λ ev, match ev with
              | SaveStatistics level statistics => Some (level, statistics)
              | _ => None
              end) tr.

(** The subject lines of the log for one level, and for the first
    [n] levels, of a complete run. *)
Definition level_log (level : nat) (subjects : list string)
  : list (nat * nat * nat * string) :=
  imap (λ i subject_dir, ((level + 1)%nat, (i + 1)%nat, length subjects, subject_dir))
    subjects.

Definition complete_log (first_level n : nat) (subjects : list string)
  : list (nat * nat * nat * string) :=
  mjoin ((λ level, level_log level subjects) <$> seq first_level n).

(** The events of the level loop: everything but the two header files
    and the closing line of the log. *)
Definition level_event (ev : Event) : Prop :=
  match ev with
  | WriteSubject _ | WriteLabel _ | LogDone => False
  | _ => True
  end.

(** The figures of one subject. *)
Definition figure_event (ev : Event) : Prop :=
  match ev with
  | ShowFigure _ | SaveSubjectFigure _ _ _ => True
  | _ => False
  end.

(** A command line with the three required options and a choice of
    the others that matter to the control flow. *)
Definition command_line (segmentations_dir : option string)
    (multi_structure show_figs save_average_figs : bool)
    (labels : option (list Z)) (labels_file : option string) : CommandLine := {|
  given_subjects_dir := "subjects";
  given_mesh_collections := ["atlas_level1.txt.gz"; "atlas_level2.txt.gz"]%string;
  given_out_dir := "out";
  given_segmentations_dir := segmentations_dir;
  given_gt_from_FS := false;
  given_segmentation_name := None;
  given_multi_structure := multi_structure;
  given_labels := labels;
  given_from_samseg := false;
  given_EM_iterations := None;
  given_show_figs := show_figs;
  given_save_figs := false;
  given_save_average_figs := save_average_figs;
  given_subjects_file := None;
  given_labels_file := labels_file;
  given_samseg_subdir := None
|}.

(** The same command line with [--save-figs]. *)
Definition saving_figures (cl : CommandLine) : CommandLine := {|
  given_subjects_dir := given_subjects_dir cl;
  given_mesh_collections := given_mesh_collections cl;
  given_out_dir := given_out_dir cl;
  given_segmentations_dir := given_segmentations_dir cl;
  given_gt_from_FS := given_gt_from_FS cl;
  given_segmentation_name := given_segmentation_name cl;
  given_multi_structure := given_multi_structure cl;
  given_labels := given_labels cl;
  given_from_samseg := given_from_samseg cl;
  given_EM_iterations := given_EM_iterations cl;
  given_show_figs := given_show_figs cl;
  given_save_figs := true;
  given_save_average_figs := given_save_average_figs cl;
  given_subjects_file := given_subjects_file cl;
  given_labels_file := given_labels_file cl;
  given_samseg_subdir := given_samseg_subdir cl
|}.

(** The small world with another set of subject directories. *)
Definition world_of_subjects (subjects : list string)
  : World (F:=Z) (Transform:=unit) (ModelK:=unit) := {|
  subjects_file_lines := λ _, [];
  listdir_directories := λ _, subjects;
  labels_file_lines := λ _, [[10; 20]; []; [30]];
  point_count := λ _, 1%nat;
  alphas_in_file := λ _, [[(1 # 2)%Q; (1 # 2)%Q]];
  reference_points := λ _ _ _, [(0, 0, 0)];
  nib_load := λ _, [[[0; 1]]];
  load_history := λ _,
    {| modelSpecifications_K := tt; transform := tt;
       deformation := [[(1, 1, 1)]; [(2, 2, 2)]]; cropping := (5, 6, 7) |};
  fit_alphas := λ _ _ _ _, [[(1 # 4)%Q; (3 # 4)%Q]];
  rasterize := λ _ _ _ _, []
|}.

(** * Arrays *)

Section VolLemmas.
Context {A B C : Type}.

Lemma vget_vmap (f : A → B) (v : Vol A) x y z :
  vget (vmap f v) x y z = f <$> vget v x y z.
Proof.
  unfold vget, vmap. rewrite list_lookup_fmap.
  destruct (v !! x) as [r|]; simpl; [|done].
  rewrite list_lookup_fmap. destruct (r !! y) as [c|]; simpl; [|done].
  by rewrite list_lookup_fmap.
Qed.

Lemma vget_vzip_with (f : A → B → C) (a : Vol A) (b : Vol B) x y z :
  vget (vzip_with f a b) x y z
  = a' ← vget a x y z; b' ← vget b x y z; Some (f a' b').
Proof.
  unfold vget, vzip_with. rewrite lookup_zip_with.
  destruct (a !! x) as [ra|]; simpl; [|done].
  destruct (b !! x) as [rb|]; simpl.
  - rewrite lookup_zip_with.
    destruct (ra !! y) as [ca|]; simpl; [|done].
    destruct (rb !! y) as [cb|]; simpl.
    + by rewrite lookup_zip_with.
    + by destruct (ca !! z).
  - destruct (ra !! y) as [ca|]; simpl; [|done]. by destruct (ca !! z).
Qed.
End VolLemmas.

(** * Label Encoder *)

Section EncoderVoxelwise.
Import Encoder.

Lemma vget_assign_channel_int k rhs m x y z :
  vget (assign_channel_int k rhs m) x y z
  = cs ← vget m x y z; v ← vget rhs x y z; Some (<[k := uint16 v]> cs).
Proof. apply vget_vzip_with. Qed.

Lemma vget_fill_None img labels : ∀ j m x y z,
  vget m x y z = None → vget (fill_label_channels img j labels m) x y z = None.
Proof.
  induction labels as [|label rest IH]; intros j m x y z Hm; simpl; [done|].
  apply IH. by rewrite vget_assign_channel_int, Hm.
Qed.

Lemma vget_fill img labels : ∀ j m x y z v,
  vget img x y z = Some v →
  vget (fill_label_channels img j labels m) x y z
  = fill_voxel v j labels <$> vget m x y z.
Proof.
  induction labels as [|label rest IH]; intros j m x y z v Hv; simpl.
  - by destruct (vget m x y z).
  - rewrite (IH _ _ _ _ _ _ Hv), vget_assign_channel_int.
    unfold eq_times_65535. rewrite vget_vmap, Hv. simpl.
    by destruct (vget m x y z).
Qed.

Lemma vget_segmentation_map_multi labels C img x y z :
  vget (segmentation_map true labels C img) x y z
  = voxel_multi labels C <$> vget img x y z.
Proof.
  unfold segmentation_map.
  rewrite vget_assign_channel_int. unfold background_rhs. rewrite vget_vmap.
  destruct (vget img x y z) as [v|] eqn:Hv; simpl.
  - rewrite (vget_fill _ _ _ _ _ _ _ _ Hv). unfold np_zeros_u16.
    rewrite vget_vmap, Hv. reflexivity.
  - rewrite vget_fill_None; [done|]. unfold np_zeros_u16.
    by rewrite vget_vmap, Hv.
Qed.

Lemma vget_assign_channel_f64 k rhs m x y z :
  vget (assign_channel_f64 k rhs m) x y z
  = cs ← vget m x y z; v ← vget rhs x y z; Some (<[k := f64_to_u16 v]> cs).
Proof. apply vget_vzip_with. Qed.

Lemma vget_segmentation_map_binary labels C img x y z :
  vget (segmentation_map false labels C img) x y z
  = voxel_binary C <$> vget img x y z.
Proof.
  unfold segmentation_map.
  rewrite !vget_assign_channel_f64. unfold np_zeros_u16. rewrite !vget_vmap.
  by destruct (vget img x y z).
Qed.
End EncoderVoxelwise.

(** ** Arithmetic at one voxel *)

Lemma uint16_small x : 0 ≤ x ≤ 65535 → uint16 x = x.
Proof. intros. unfold uint16. apply Z.mod_small. lia. Qed.

Lemma uint16_uint64 x : uint16 (uint64 x) = uint16 x.
Proof.
  unfold uint16, uint64. apply Z.mod_mod_divide.
  exists (2 ^ 48). reflexivity.
Qed.

Lemma indicator_cases v label :
  (v = label ∧ indicator v label = 1) ∨ (v ≠ label ∧ indicator v label = 0).
Proof.
  unfold indicator. destruct (Z.eqb_spec v label); simpl; [left|right]; done.
Qed.

Lemma uint16_scaled_indicator v label :
  uint16 (bool_to_int (v =? label) * 65535) = 65535 * indicator v label.
Proof.
  fold (indicator v label).
  destruct (indicator_cases v label) as [[_ ->]|[_ ->]]; reflexivity.
Qed.

Lemma np_sum_u64_range l : ∀ a,
  0 ≤ a < 2 ^ 64 → 0 ≤ foldl (λ acc x, uint64 (acc + x)) a l < 2 ^ 64.
Proof.
  induction l as [|x l IH]; intros a Ha; simpl; [done|].
  apply IH. unfold uint64. apply Z.mod_pos_bound. lia.
Qed.

Lemma np_sum_u64_mod l : ∀ a,
  uint64 (foldl (λ acc x, uint64 (acc + x)) a l) = uint64 (a + sumZ l).
Proof.
  induction l as [|x l IH]; intros a; simpl.
  - by rewrite Z.add_0_r.
  - rewrite IH. unfold uint64. rewrite Zplus_mod_idemp_l. f_equal. lia.
Qed.

Lemma np_sum_u64_sumZ l : Encoder.np_sum_u64 l = uint64 (sumZ l).
Proof.
  unfold Encoder.np_sum_u64.
  change (sumZ l) with (0 + sumZ l). rewrite <- (np_sum_u64_mod l 0).
  symmetry. apply Z.mod_small, np_sum_u64_range. lia.
Qed.

Lemma background_value l :
  uint16 (uint64 (65535 - Encoder.np_sum_u64 l)) = uint16 (65535 - sumZ l).
Proof.
  rewrite uint16_uint64, np_sum_u64_sumZ, <- (uint16_uint64 (65535 - uint64 _)).
  unfold uint64 at 1 2. rewrite Zminus_mod_idemp_r. apply uint16_uint64.
Qed.

Lemma fill_voxel_app v labels : ∀ j pre,
  length pre = S j →
  fill_voxel v j labels (pre ++ replicate (length labels) 0)
  = pre ++ ((λ label, 65535 * indicator v label) <$> labels).
Proof.
  induction labels as [|label rest IH]; intros j pre Hpre; simpl; [done|].
  rewrite uint16_scaled_indicator.
  replace (j + 1)%nat with (length pre + 0)%nat by lia.
  rewrite insert_app_r. simpl.
  rewrite (cons_middle _ pre), app_assoc.
  rewrite (IH (S j)); [by rewrite <- app_assoc|].
  rewrite length_app. simpl. lia.
Qed.

Lemma voxel_multi_eq labels v :
  let fg := (λ label, 65535 * indicator v label) <$> labels in
  voxel_multi labels (length labels + 1) v = uint16 (65535 - sumZ fg) :: fg.
Proof.
  unfold voxel_multi. replace (length labels + 1)%nat with (S (length labels)) by lia.
  change (replicate (S (length labels)) 0) with ([0] ++ replicate (length labels) 0).
  rewrite (fill_voxel_app v labels 0 [0] eq_refl). simpl.
  by rewrite background_value.
Qed.

Lemma sumZ_foreground v labels :
  sumZ ((λ label, 65535 * indicator v label) <$> labels)
  = 65535 * Z.of_nat (matches v labels).
Proof.
  unfold matches. induction labels as [|label rest IH]; [done|].
  rewrite fmap_cons, filter_cons.
  change (sumZ (?a :: ?l)) with (a + sumZ l). rewrite IH.
  destruct (indicator_cases v label) as [[-> ->]|[Hne ->]].
  - rewrite decide_True by done. simpl length. lia.
  - rewrite decide_False by done. lia.
Qed.

Lemma voxel_binary_mask C v :
  v = 0 ∨ v = 1 →
  voxel_binary C v
  = <[1%nat := 65535 * v]> (<[0%nat := 65535 * (1 - v)]> (replicate C 0)).
Proof. intros [-> | ->]; reflexivity. Qed.



Lemma label_encoder_multi_voxel labels img x y z v :
  vget img x y z = Some v →
  let fg := (λ label, 65535 * indicator v label) <$> labels in
  vget (label_encoder true labels img) x y z
  = Some (uint16 (65535 - sumZ fg) :: fg).
Proof.
  intros Hv fg. unfold label_encoder, Labels.number_of_classes.
  rewrite vget_segmentation_map_multi, Hv. simpl.
  by rewrite voxel_multi_eq.
Qed.

Lemma label_encoder_binary_voxel labels img x y z v :
  vget img x y z = Some v →
  vget (label_encoder false labels img) x y z
  = Some [f64_to_u16 ((1 - v) * 65535); f64_to_u16 (v * 65535)].
Proof.
  intros Hv. unfold label_encoder, Labels.number_of_classes.
  by rewrite vget_segmentation_map_binary, Hv.
Qed.

Lemma background_exact v labels :
  (matches v labels ≤ 1)%nat →
  let fg := (λ label, 65535 * indicator v label) <$> labels in
  uint16 (65535 - sumZ fg) = 65535 - sumZ fg.
Proof.
  intros Hone fg. apply uint16_small. unfold fg. rewrite sumZ_foreground. lia.
Qed.

(** C1 (amended).  Multi-structure mode, at every voxel [v] of the
    volume: the encoder leaves a vector of [L + 1] channels; channel [k]
    for [k] in [1 .. L] is 65535 times the indicator that the voxel
    equals [labels[k-1]]; channel 0 is 65535 minus the sum of the other
    channels reduced modulo 2^16 by the uint16 store, and is exactly
    that difference when the voxel matches at most one entry of the
    label list.  For labels [10, 20]: a voxel 10 gets [0, 65535, 0], a
    voxel 20 gets [0, 0, 65535] and any other voxel [65535, 0, 0]. *)
Theorem multi_structure_encoding (labels : list Z) (img : Vol Z) (x y z : nat) (v : Z)
    (Hv : vget img x y z = Some v) :
  ∃ cs,
    vget (label_encoder true labels img) x y z = Some cs
    ∧ length cs = (length labels + 1)%nat
    ∧ (∀ k label, labels !! k = Some label →
         cs !! (k + 1)%nat = Some (65535 * indicator v label))
    ∧ cs !! 0%nat = Some ((65535 - sumZ (drop 1 cs)) mod 2 ^ 16)
    ∧ ((matches v labels ≤ 1)%nat → cs !! 0%nat = Some (65535 - sumZ (drop 1 cs)))
    ∧ (labels = [10; 20] →
         (v = 10 → cs = [0; 65535; 0])
         ∧ (v = 20 → cs = [0; 0; 65535])
         ∧ (v ≠ 10 → v ≠ 20 → cs = [65535; 0; 0])).
Proof.
  pose proof (label_encoder_multi_voxel labels img x y z v Hv) as Hget.
  set (fg := (λ label, 65535 * indicator v label) <$> labels) in *.
  exists (uint16 (65535 - sumZ fg) :: fg).
  split; [exact Hget|].
  split; [simpl; unfold fg; rewrite length_fmap; lia|].
  split.
  { intros k label Hk. replace (k + 1)%nat with (S k) by lia. simpl.
    unfold fg. by rewrite list_lookup_fmap, Hk. }
  split; [reflexivity|].
  split.
  { intros Hone. simpl. f_equal. rewrite drop_0. by apply background_exact. }
  intros ->. unfold fg. simpl. repeat split.
  - intros ->. reflexivity.
  - intros ->. reflexivity.
  - intros H10 H20.
    destruct (indicator_cases v 10) as [[? _]|[_ ->]]; [done|].
    destruct (indicator_cases v 20) as [[? _]|[_ ->]]; [done|].
    reflexivity.
Qed.

Lemma multi_structure_encoding_witness :
  vget [[[10; 20]; [0; 3]]] 0 0 1 = Some 20
  ∧ ∃ cs,
      vget (label_encoder true [10; 20] [[[10; 20]; [0; 3]]]) 0 0 1 = Some cs
      ∧ cs = [0; 0; 65535].
Proof.
  split; [reflexivity|].
  destruct (multi_structure_encoding [10; 20] [[[10; 20]; [0; 3]]] 0 0 1 20 eq_refl)
    as (cs & Hcs & _ & _ & _ & _ & Hscenario).
  exists cs. split; [exact Hcs|].
  by apply Hscenario.
Defined.

(** C1 as stated fails where a label is listed twice: the stored
    background is 1, not 65535 minus the sum of the other channels. *)
Lemma multi_structure_background_counterexample :
  label_encoder true [10; 10] [[[10]]] = [[[[1; 65535; 65535]]]]
  ∧ ¬ (∀ labels img x y z v cs,
         vget img x y z = Some v →
         vget (label_encoder true labels img) x y z = Some cs →
         cs !! 0%nat = Some (65535 - sumZ (drop 1 cs))).
Proof.
  split; [reflexivity|].
  intros H.
  specialize (H [10; 10] [[[10]]] 0%nat 0%nat 0%nat 10 _ eq_refl eq_refl).
  discriminate H.
Qed.




(** C3 (amended).  Binary mode reads the volume as a 0/1 mask and does
    not consult the label list: for a volume holding only the values 0
    and 1, at every voxel channel 0 is 65535 times (1 minus the
    indicator that the voxel is 1) and channel 1 is 65535 times that
    indicator. *)
Theorem binary_encoding_of_mask (labels : list Z) (img : Vol Z) (x y z : nat) (v : Z)
    (Hmask : ∀ x' y' z' v', vget img x' y' z' = Some v' → v' = 0 ∨ v' = 1)
    (Hv : vget img x y z = Some v) :
  vget (label_encoder false labels img) x y z
  = Some [65535 * (1 - indicator v 1); 65535 * indicator v 1].
Proof.
  rewrite (label_encoder_binary_voxel labels img x y z v Hv).
  destruct (Hmask _ _ _ _ Hv) as [-> | ->]; reflexivity.
Qed.

Lemma binary_encoding_of_mask_witness :
  vget (label_encoder false [17] [[[0; 1]; [1; 0]]]) 0 0 1 = Some [0; 65535].
Proof.
  apply (binary_encoding_of_mask [17] [[[0; 1]; [1; 0]]] 0 0 1 1); [|reflexivity].
  intros [|[|?]] [|[|?]] [|[|?]] v'; vm_compute; intros [= <-]; lia.
Defined.

(** C3 as stated fails: with foreground label 17, a voxel holding 1 is
    encoded as foreground although it does not carry the label. *)
Lemma binary_encoding_counterexample :
  label_encoder false [17] [[[1]]] = [[[[0; 65535]]]]
  ∧ [65535 * (1 - indicator 1 17); 65535 * indicator 1 17] = [65535; 0]
  ∧ ¬ (∀ foreground img x y z v,
         vget img x y z = Some v →
         vget (label_encoder false [foreground] img) x y z
         = Some [65535 * (1 - indicator v foreground); 65535 * indicator v foreground]).
Proof.
  split; [reflexivity|]. split; [reflexivity|].
  intros H.
  specialize (H 17 [[[1]]] 0%nat 0%nat 0%nat 1 eq_refl).
  discriminate H.
Qed.

(** C8.  A multi-structure input in which a voxel matches two entries
    of the label list: the foreground channels add up to more than
    65535, 65535 minus their sum is negative, and the uint16 store keeps
    that difference modulo 2^16, so the vector is not a distribution of
    total 65535; nothing rejects the input. *)
Theorem overlapping_labels_wrap_background :
  ∃ labels img x y z v cs,
    vget img x y z = Some v
    ∧ (matches v labels > 1)%nat
    ∧ vget (label_encoder true labels img) x y z = Some cs
    ∧ sumZ (drop 1 cs) > 65535
    ∧ 65535 - sumZ (drop 1 cs) < 0
    ∧ cs !! 0%nat = Some ((65535 - sumZ (drop 1 cs)) mod 2 ^ 16)
    ∧ cs !! 0%nat ≠ Some (65535 - sumZ (drop 1 cs))
    ∧ sumZ cs ≠ 65535.
Proof.
  exists [10; 10], [[[10]]], 0%nat, 0%nat, 0%nat, 10, [1; 65535; 65535].
  repeat split; try reflexivity; try (vm_compute; lia); vm_compute; discriminate.
Qed.

(** * Deformation Applier *)

(** C4.  For any reference positions, displacement field of the same
    length and crop offset, the node positions main computes are defined
    and node [i] is reference[i] + displacement[i] + offset, coordinate
    by coordinate, with the same offset at every node. *)
Theorem deformation_applier {F : Type} (fadd : F → F → F) (of_int : Z → F)
    (reference deformations : list (F * F * F)) (cropping : Z * Z * Z)
    (Hcount : length deformations = length reference) :
  ∃ points,
    Deformation.node_positions fadd of_int reference deformations cropping = inr points
    ∧ length points = length reference
    ∧ ∀ i r d, reference !! i = Some r → deformations !! i = Some d →
        points !! i
        = Some (fadd (fadd r.1.1 d.1.1) (of_int cropping.1.1),
                fadd (fadd r.1.2 d.1.2) (of_int cropping.1.2),
                fadd (fadd r.2 d.2) (of_int cropping.2)).
Proof.
  unfold Deformation.node_positions, Deformation.getMesh_points.
  rewrite decide_True by done.
  eexists. split; [reflexivity|]. split.
  - unfold Deformation.add_cropping. rewrite length_fmap, length_zip_with. lia.
  - intros i r d Hr Hd. unfold Deformation.add_cropping.
    rewrite list_lookup_fmap, lookup_zip_with, Hr. simpl. rewrite Hd. reflexivity.
Qed.

Lemma deformation_applier_witness :
  ∃ points,
    Deformation.node_positions Z.add id [(0, 0, 0); (1, 2, 3)] [(1, 1, 1); (0, 0, 5)]
      (10, 20, 30) = inr points
    ∧ points !! 1%nat = Some (11, 22, 38).
Proof.
  destruct (deformation_applier Z.add id [(0, 0, 0); (1, 2, 3)] [(1, 1, 1); (0, 0, 5)]
              (10, 20, 30) eq_refl) as (points & Hp & _ & Hi).
  exists points. split; [exact Hp|].
  apply (Hi 1%nat (1, 2, 3) (0, 0, 5)); reflexivity.
Defined.

(** * EM Fitter *)

Section FitterLemmas.
Context {Geometry Target Prediction : Type}.
Variable e_step : Geometry → list (list Q) → Prediction.
Variable m_step : Geometry → Target → Prediction → list (list Q) → list (list Q).

Lemma iterate_steps budget geometry target : ∀ alphas,
  (EM.iterate e_step m_step budget geometry target alphas).1
  = mjoin (replicate budget [EM.E_step; EM.M_step]).
Proof.
  induction budget as [|n IH]; intros alphas; simpl; [done|].
  specialize (IH (m_step geometry target (e_step geometry alphas) alphas)).
  destruct (EM.iterate _ _ n _ _ _) as [steps final]. simpl in *. by rewrite IH.
Qed.
Lemma iterate_alphas budget geometry target : ∀ alphas,
  (EM.iterate e_step m_step budget geometry target alphas).2
  = Nat.iter budget (λ a, m_step geometry target (e_step geometry a) a) alphas.
Proof.
  induction budget as [|n IH]; intros alphas; [done|].
  cbn [EM.iterate].
  specialize (IH (m_step geometry target (e_step geometry alphas) alphas)).
  destruct (EM.iterate _ _ n _ _ _) as [steps final]. cbn [snd] in *.
  rewrite IH.
  exact (Nat.iter_swap n _ (λ a, m_step geometry target (e_step geometry a) a) alphas).
Qed.
End FitterLemmas.

(** C7.  Whatever the E-step and the M-step compute, for every geometry
    and target the fitter called with the parsed [--EM-iterations]
    (10 when the option is not given) runs exactly that many E-step /
    M-step pairs, and nothing else: no test on the alphas ends the loop
    early or prolongs it, and the fitted alphas are the uniform prior
    taken through that many rounds of E-step followed by M-step. *)
Theorem em_fixed_iteration_budget {Geometry Target Prediction : Type}
    (e_step : Geometry → list (list Q) → Prediction)
    (m_step : Geometry → Target → Prediction → list (list Q) → list (list Q))
    (cl : CommandLine) (number_of_nodes number_of_classes : nat)
    (geometry : Geometry) (target : Target)
    (Hbudget : 0 ≤ EM_iterations (parseArguments cl)) :
  let n := EM_iterations (parseArguments cl) in
  let fitted := EM.fit_subject e_step m_step (parseArguments cl) number_of_nodes
                  number_of_classes geometry target in
  let steps := fitted.1 in
  let round := λ alphas, m_step geometry target (e_step geometry alphas) alphas in
  n = default 10 (given_EM_iterations cl)
  ∧ steps = mjoin (replicate (Z.to_nat n) [EM.E_step; EM.M_step])
  ∧ Z.of_nat (length steps) = 2 * n
  ∧ fitted.2
    = Nat.iter (Z.to_nat n) round (EM.uniform number_of_nodes number_of_classes)
  ∧ (given_EM_iterations cl = None →
       steps = mjoin (replicate 10 [EM.E_step; EM.M_step])
       ∧ fitted.2 = Nat.iter 10 round (EM.uniform number_of_nodes number_of_classes)).
Proof.
  intros n fitted steps round. unfold steps, fitted, EM.fit_subject, EM.fit_alphas.
  rewrite iterate_steps, iterate_alphas. fold n. fold round.
  split; [reflexivity|]. split; [reflexivity|]. split; [|split; [reflexivity|]].
  - assert (∀ k, length (mjoin (replicate k [EM.E_step; EM.M_step])) = (2 * k)%nat) as ->.
    { induction k as [|k IH]; simpl in *; [done|]. rewrite IH. lia. }
    lia.
  - intros Hnone. subst n. simpl EM_iterations. rewrite Hnone. split; reflexivity.
Qed.

Lemma em_fixed_iteration_budget_witness :
  let fitted :=
    EM.fit_subject (λ (_ : unit) a, a)
      (λ _ (_ : unit) prediction _, fmap (M:=list) (fmap (M:=list) (Qplus 1)) prediction)
      (parseArguments required_only) 1 2 tt tt in
  fitted.1 = mjoin (replicate 10 [EM.E_step; EM.M_step])
  ∧ fitted.2
    = Nat.iter 10 (fmap (M:=list) (fmap (M:=list) (Qplus 1))) [[(1 # 2)%Q; (1 # 2)%Q]].
Proof.
  cbv zeta.
  destruct (em_fixed_iteration_budget (λ (_ : unit) a, a)
              (λ _ (_ : unit) prediction _,
                 fmap (M:=list) (fmap (M:=list) (Qplus 1)) prediction)
              required_only 1 2 tt tt) as (_ & _ & _ & _ & Hdefault).
  - simpl. lia.
  - exact (Hdefault eq_refl).
Defined.

(** * main *)

Lemma for_each_emit {A} (f : A → Event) (l : list A) :
  for_each l (λ x, emit (f x)) = (f <$> l, inr tt).
Proof.
  induction l as [|x l IH]; [done|].
  simpl. rewrite IH. reflexivity.
Qed.

(** C10.  When neither [--labels] nor [--labels_file] is given, main
    stops with the TypeError of iterating over [None] while writing the
    labels file; all it has written by then is the subjects file, so no
    subject has been processed.  This does not depend on
    [--multi-structure]. *)
Theorem missing_labels_abort {F Transform ModelK : Type}
    (fadd : F → F → F) (of_int : Z → F) (w : World (F:=F) (Transform:=Transform) (ModelK:=ModelK))
    (cl : CommandLine)
    (Hlabels : given_labels cl = None)
    (Hfile : given_labels_file cl = None) :
  main fadd of_int w cl
  = (WriteSubject <$> subject_list w (parseArguments cl),
     inl TypeError_NoneType_not_iterable).
Proof.
  unfold main, Labels.select. simpl. rewrite Hfile, Hlabels. simpl.
  rewrite for_each_emit. simpl. by rewrite app_nil_r.
Qed.

(** * Atlas Aggregator *)

Lemma run_bind_inr {A B} (m : Run A) (k : A → Run B) tr b :
  m ≫= k = (tr, inr b) →
  ∃ tr1 a tr2, m = (tr1, inr a) ∧ k a = (tr2, inr b) ∧ tr = tr1 ++ tr2.
Proof.
  destruct m as [tr1 [e|a]]; unfold mbind, run_bind; [done|].
  destruct (k a) as [tr2 r] eqn:Hk. intros [= <- ->]. by exists tr1, a, tr2.
Qed.

Lemma has_shape_np_zeros N C S : has_shape N C S (Aggregator.np_zeros N C S).
Proof.
  unfold has_shape, Aggregator.np_zeros. split; [apply length_replicate|].
  apply Forall_replicate. split; [apply length_replicate|].
  apply Forall_replicate, length_replicate.
Qed.

Lemma has_shape_cell N C S statistics n c :
  has_shape N C S statistics →
  (n < N)%nat → (c < C)%nat →
  ∃ over_subjects, cell statistics n c = Some over_subjects ∧ length over_subjects = S.
Proof.
  intros [Hlen Hrows] Hn Hc. unfold cell.
  destruct (lookup_lt_is_Some_2 statistics n) as [row Hrow]; [lia|].
  rewrite Hrow. simpl.
  destruct (proj1 (Forall_lookup _ _) Hrows n row Hrow) as [HC Hcells].
  destruct (lookup_lt_is_Some_2 row c) as [over Hover]; [lia|].
  exists over. split; [done|].
  exact (proj1 (Forall_lookup _ _) Hcells c over Hover).
Qed.

Lemma has_shape_cell_None N C S statistics n c :
  has_shape N C S statistics →
  ¬ ((n < N)%nat ∧ (c < C)%nat) → cell statistics n c = None.
Proof.
  intros [Hlen Hrows] Hout. unfold cell.
  destruct (statistics !! n) as [row|] eqn:Hrow; simpl; [|done].
  destruct (proj1 (Forall_lookup _ _) Hrows n row Hrow) as [HC _].
  apply lookup_ge_None. apply lookup_lt_Some in Hrow. lia.
Qed.

Lemma same_shape_entry N C S statistics alphas n c :
  has_shape N C S statistics →
  Aggregator.same_shape statistics alphas →
  is_Some (entry alphas n c) ↔ (n < N)%nat ∧ (c < C)%nat.
Proof.
  intros [Hlen Hrows] Hsame. unfold entry. split.
  - intros [q Hq].
    destruct (alphas !! n) as [a|] eqn:Ha; simpl in Hq; [|done].
    destruct (Forall2_lookup_r _ _ _ _ _ Hsame Ha) as (row & Hrow & Hl).
    destruct (proj1 (Forall_lookup _ _) Hrows n row Hrow) as [HC _].
    apply lookup_lt_Some in Hrow, Hq. lia.
  - intros [Hn Hc].
    destruct (lookup_lt_is_Some_2 statistics n) as [row Hrow]; [lia|].
    destruct (Forall2_lookup_l _ _ _ _ _ Hsame Hrow) as (a & Ha & Hl).
    destruct (proj1 (Forall_lookup _ _) Hrows n row Hrow) as [HC _].
    rewrite Ha. simpl. apply lookup_lt_is_Some_2. lia.
Qed.

Lemma cell_store statistics i alphas statistics' :
  Aggregator.store_subject statistics i alphas = inr statistics' →
  Aggregator.same_shape statistics alphas
  ∧ ∀ n c, cell statistics' n c
           = over_subjects ← cell statistics n c; a ← entry alphas n c;
             Some (<[i := a]> over_subjects).
Proof.
  unfold Aggregator.store_subject. case_decide as Hindex; [|done].
  case_decide as Hsame; [|done].
  intros [= <-]. split; [done|]. intros n c. unfold cell, entry.
  rewrite lookup_zip_with.
  destruct (statistics !! n) as [row|]; simpl; [|done].
  destruct (alphas !! n) as [a|]; simpl.
  - by rewrite lookup_zip_with.
  - by destruct (row !! c).
Qed.

Lemma has_shape_store N C S statistics i alphas statistics' :
  has_shape N C S statistics →
  Aggregator.store_subject statistics i alphas = inr statistics' →
  has_shape N C S statistics'.
Proof.
  intros [Hlen Hrows]. unfold Aggregator.store_subject.
  case_decide as Hindex; [|done].
  case_decide as Hsame; [|done]. intros [= <-]. split.
  - rewrite length_zip_with, <- (Forall2_length _ _ _ Hsame). lia.
  - apply Forall_lookup. intros n row'. rewrite lookup_zip_with.
    destruct (statistics !! n) as [row|] eqn:Hrow; simpl; [|done].
    destruct (alphas !! n) as [a|] eqn:Ha; simpl; [|done]. intros [= <-].
    destruct (proj1 (Forall_lookup _ _) Hrows n row Hrow) as [HC Hcells].
    pose proof (Forall2_lookup_lr _ _ _ _ _ _ Hsame Hrow Ha) as Hl. simpl in Hl.
    split; [rewrite length_zip_with; lia|].
    apply Forall_lookup. intros c over'. rewrite lookup_zip_with.
    destruct (row !! c) as [over|] eqn:Hover; simpl; [|done].
    destruct (a !! c); simpl; [|done]. intros [= <-].
    rewrite length_insert. exact (proj1 (Forall_lookup _ _) Hcells c over Hover).
Qed.

Lemma stored_store_eq N C S statistics i alphas statistics' :
  has_shape N C S statistics → (i < S)%nat →
  Aggregator.store_subject statistics i alphas = inr statistics' →
  ∀ n c, stored statistics' n c i = entry alphas n c.
Proof.
  intros Hshape Hi Hstore n c.
  destruct (cell_store _ _ _ _ Hstore) as [Hsame Hcell].
  unfold stored. rewrite Hcell.
  destruct (decide ((n < N)%nat ∧ (c < C)%nat)) as [[Hn Hc]|Hout].
  - destruct (has_shape_cell _ _ _ _ _ _ Hshape Hn Hc) as (over & -> & Hlen).
    destruct (proj2 (same_shape_entry _ _ _ _ _ n c Hshape Hsame)) as [a ->]; [done|].
    simpl. apply list_lookup_insert_eq. lia.
  - rewrite (has_shape_cell_None _ _ _ _ _ _ Hshape Hout). simpl.
    destruct (entry alphas n c) as [a|] eqn:Ha; [|done].
    destruct Hout. apply (same_shape_entry _ _ _ _ _ n c Hshape Hsame). by rewrite Ha.
Qed.

Lemma stored_store_ne N C S statistics i alphas statistics' k :
  has_shape N C S statistics → k ≠ i →
  Aggregator.store_subject statistics i alphas = inr statistics' →
  ∀ n c, stored statistics' n c k = stored statistics n c k.
Proof.
  intros Hshape Hk Hstore n c.
  destruct (cell_store _ _ _ _ Hstore) as [Hsame Hcell].
  unfold stored. rewrite Hcell.
  destruct (cell statistics n c) as [over|] eqn:Hover; simpl; [|done].
  destruct (entry alphas n c) as [a|] eqn:Ha; simpl.
  - by apply list_lookup_insert_ne.
  - destruct (decide ((n < N)%nat ∧ (c < C)%nat)) as [Hin|Hout].
    + apply (same_shape_entry _ _ _ _ _ n c Hshape Hsame) in Hin.
      rewrite Ha in Hin. by destruct Hin.
    + by rewrite (has_shape_cell_None _ _ _ _ _ _ Hshape Hout) in Hover.
Qed.

Section LevelLemmas.
Context {X : Type}.
Variable body : nat → string → Run (list (list Q) * X).
Variable render : option X → list (list Q) → Abort + Vol (list Q).

(** What the loop over the subjects leaves in the statistics. *)
Lemma subject_loop_spec N C NS subjects : ∀ j st tr st',
  has_shape N C NS st.1.1 → (j + length subjects ≤ NS)%nat →
  Aggregator.subject_loop body j subjects st = (tr, inr st') →
  has_shape N C NS st'.1.1
  ∧ (∀ i subject_dir, subjects !! i = Some subject_dir →
       ∃ tri alphas x,
         body (j + i)%nat subject_dir = (tri, inr (alphas, x))
         ∧ ∀ n c, stored st'.1.1 n c (j + i) = entry alphas n c)
  ∧ (∀ n c k, (k < j)%nat → stored st'.1.1 n c k = stored st.1.1 n c k)
  ∧ (subjects = [] → st' = st)
  ∧ (∀ subject_dir, last subjects = Some subject_dir →
       ∃ tri alphas x,
         body (j + length subjects - 1)%nat subject_dir = (tri, inr (alphas, x))
         ∧ st'.1.2 = alphas ∧ st'.2 = Some x).
Proof.
  induction subjects as [|subject_dir rest IH]; intros j st tr st' Hshape Hj Hrun.
  - simpl in Hrun. injection Hrun as <- <-.
    split; [done|]. split; [intros i s Hi; by rewrite lookup_nil in Hi|].
    split; [done|]. split; [done|]. intros s Hs. done.
  - simpl in Hj. cbn [Aggregator.subject_loop] in Hrun.
    apply run_bind_inr in Hrun as (tr1 & [alphas x] & tr2 & Hbody & Hrun & ->).
    apply run_bind_inr in Hrun as (tr3 & statistics & tr4 & Hstore & Hrun & ->).
    unfold lift in Hstore. injection Hstore as <- Hstore.
    cbn [fst snd] in Hstore, Hrun.
    pose proof (has_shape_store _ _ _ _ _ _ _ Hshape Hstore) as Hshape1.
    destruct (IH (S j) (statistics, alphas, Some x) _ _ Hshape1 ltac:(lia) Hrun)
      as (Hshape' & Hstored & Hbefore & Hnil & Hlast).
    simpl in Hbefore. split; [exact Hshape'|]. split; [|split; [|split]].
    + intros [|i] s Hi; simpl in Hi.
      * injection Hi as <-. exists tr1, alphas, x.
        replace (j + 0)%nat with j by lia. split; [exact Hbody|]. intros n c.
        rewrite Hbefore by lia.
        apply (stored_store_eq N C NS _ j _ _ Hshape ltac:(lia) Hstore).
      * destruct (Hstored i s Hi) as (tri & ai & xi & Hbi & Hsi).
        exists tri, ai, xi. replace (j + S i)%nat with (S j + i)%nat by lia. done.
    + intros n c k Hk. rewrite Hbefore by lia.
      apply (stored_store_ne N C NS _ j _ _ k Hshape ltac:(lia) Hstore).
    + done.
    + intros s Hs. destruct rest as [|s' rest'].
      * simpl in Hs. injection Hs as <-. rewrite (Hnil eq_refl). simpl.
        exists tr1, alphas, x. replace (j + 1 - 1)%nat with j by lia. done.
      * destruct (Hlast s Hs) as (tri & ai & xi & Hbi & Hai & Hxi).
        exists tri, ai, xi. split; [|done].
        replace (j + length (subject_dir :: s' :: rest') - 1)%nat
          with (S j + length (s' :: rest') - 1)%nat by (simpl; lia). done.
Qed.

(** What lines 210-227 write and leave as the alphas of the mesh. *)
Lemma epilogue_spec show_figs save_average_figs level st tr final :
  Aggregator.epilogue render show_figs save_average_figs level st = (tr, inr final) →
  last tr = Some (SaveStatistics (level + 1) st.1.1)
  ∧ final = (if show_figs || save_average_figs
             then Aggregator.np_mean_axis2 st.1.1 else st.1.2)
  ∧ (show_figs = false → save_average_figs = false →
     tr = [SaveStatistics (level + 1) st.1.1]).
Proof.
  unfold Aggregator.epilogue.
  destruct show_figs, save_average_figs; simpl;
    repeat (destruct (render _ _) as [e|images]; simpl; [done|]);
    intros [= <- <-]; done.
Qed.
End LevelLemmas.

Lemma has_shape_cell_length N C S statistics n c over_subjects :
  has_shape N C S statistics →
  cell statistics n c = Some over_subjects → length over_subjects = S.
Proof.
  intros Hshape Hcell.
  destruct (decide ((n < N)%nat ∧ (c < C)%nat)) as [[Hn Hc]|Hout].
  - destruct (has_shape_cell _ _ _ _ _ _ Hshape Hn Hc) as (over & Hover & Hlen).
    congruence.
  - rewrite (has_shape_cell_None _ _ _ _ _ _ Hshape Hout) in Hcell. done.
Qed.

Lemma entry_np_mean_axis2 statistics n c :
  entry (Aggregator.np_mean_axis2 statistics) n c
  = Aggregator.np_mean <$> cell statistics n c.
Proof.
  unfold entry, cell, Aggregator.np_mean_axis2. rewrite list_lookup_fmap.
  destruct (statistics !! n) as [row|]; simpl; [|done].
  by rewrite list_lookup_fmap.
Qed.

(** C5 (amended).  At each level the accumulator has shape nodes x
    classes x subjects and holds, at subject index [i], the alphas the
    body fitted for subject [i]; the accumulator itself is what the
    level saves last.  The mean over the subject axis, entry by entry
    the sum over the subjects divided by their number and nothing more,
    becomes the alphas of the mesh when [--show-figs] or
    [--save-average-figs] is given; with neither, the mesh keeps the
    alphas of the last subject. *)
Theorem atlas_aggregator {X : Type}
    (body : nat → string → Run (list (list Q) * X))
    (render : option X → list (list Q) → Abort + Vol (list Q))
    (show_figs save_average_figs : bool) (level N C : nat)
    (subjects : list string) (mesh_alphas : list (list Q))
    (tr : list Event) (final : list (list Q))
    (Hrun : Aggregator.level_loop body render show_figs save_average_figs level
              N C subjects mesh_alphas = (tr, inr final)) :
  ∃ statistics,
    last tr = Some (SaveStatistics (level + 1) statistics)
    ∧ has_shape N C (length subjects) statistics
    ∧ (∀ i subject_dir, subjects !! i = Some subject_dir →
         ∃ tri alphas x,
           body i subject_dir = (tri, inr (alphas, x))
           ∧ ∀ n c, stored statistics n c i = entry alphas n c)
    ∧ (show_figs || save_average_figs = true →
         final = Aggregator.np_mean_axis2 statistics
         ∧ ∀ n c over_subjects, cell statistics n c = Some over_subjects →
             entry final n c
             = Some (Aggregator.sumQ over_subjects
                     / inject_Z (Z.of_nat (length subjects)))%Q)
    ∧ (show_figs = false → save_average_figs = false →
         (subjects = [] → final = mesh_alphas)
         ∧ ∀ subject_dir, last subjects = Some subject_dir →
             ∃ tri alphas x,
               body (length subjects - 1)%nat subject_dir = (tri, inr (alphas, x))
               ∧ final = alphas).
Proof.
  unfold Aggregator.level_loop in Hrun.
  apply run_bind_inr in Hrun as (tr1 & st & tr2 & Hloop & Hepi & ->).
  destruct (subject_loop_spec body N C (length subjects) subjects 0
              (Aggregator.np_zeros N C (length subjects), mesh_alphas, None) _ _
              (has_shape_np_zeros _ _ _) ltac:(simpl; lia) Hloop)
    as (Hshape & Hstored & _ & Hnil & Hlast).
  destruct (epilogue_spec render _ _ _ _ _ _ Hepi) as (Hsave & Hfinal & _).
  exists st.1.1. split.
  { by rewrite last_app, Hsave. }
  split; [exact Hshape|]. split; [exact Hstored|]. split.
  - intros Hflag. rewrite Hflag in Hfinal. split; [exact Hfinal|].
    intros n c over Hover. rewrite Hfinal, entry_np_mean_axis2, Hover. simpl.
    unfold Aggregator.np_mean.
    by rewrite (has_shape_cell_length _ _ _ _ _ _ _ Hshape Hover).
  - intros -> ->. simpl in Hfinal. split.
    + intros Hs. by rewrite Hfinal, (Hnil Hs).
    + intros s Hs. destruct (Hlast s Hs) as (tri & alphas & x & Hb & Ha & _).
      exists tri, alphas, x. split; [exact Hb|]. by rewrite Hfinal.
Qed.

Lemma atlas_aggregator_witness :
  ∃ statistics,
    has_shape 1 2 2 statistics
    ∧ stored statistics 0 1 1 = Some 1%Q
    ∧ Aggregator.np_mean_axis2 statistics = [[(1 # 2)%Q; (1 # 2)%Q]].
Proof.
  destruct (atlas_aggregator two_subjects blank_figure true false 0 1 2
              ["sub01"; "sub02"]%string [[(1 # 2)%Q; (1 # 2)%Q]]
              [ShowFigure []; SaveStatistics 1 [[[1%Q; 0%Q]; [0%Q; 1%Q]]]]
              [[(1 # 2)%Q; (1 # 2)%Q]] eq_refl)
    as (statistics & _ & Hshape & Hstored & Hmean & _).
  exists statistics. split; [exact Hshape|]. split.
  - destruct (Hstored 1%nat "sub02"%string eq_refl) as (tri & alphas & x & Hbody & Hs).
    injection Hbody as _ <- _. apply Hs.
  - destruct (Hmean eq_refl) as [Hfinal _]. by rewrite <- Hfinal.
Defined.

(** C5 as stated fails without [--show-figs] and [--save-average-figs]:
    the level writes the accumulator and nothing else, and the mesh is
    left with the alphas of the last subject, which are not the mean. *)
Lemma atlas_mean_counterexample :
  Aggregator.level_loop two_subjects blank_figure false false 0 1 2
    ["sub01"; "sub02"]%string [[(1 # 2)%Q; (1 # 2)%Q]]
  = ([SaveStatistics 1 [[[1%Q; 0%Q]; [0%Q; 1%Q]]]], inr [[0%Q; 1%Q]])
  ∧ Aggregator.np_mean_axis2 [[[1%Q; 0%Q]; [0%Q; 1%Q]]] = [[(1 # 2)%Q; (1 # 2)%Q]]
  ∧ ¬ (∀ (body : nat → string → Run (list (list Q) * unit)) render show_figs
         save_average_figs level N C subjects mesh_alphas tr final,
         Aggregator.level_loop body render show_figs save_average_figs level N C
           subjects mesh_alphas = (tr, inr final) →
         ∃ statistics,
           last tr = Some (SaveStatistics (level + 1) statistics)
           ∧ alphas_equiv final (Aggregator.np_mean_axis2 statistics)).
Proof.
  split; [reflexivity|]. split; [reflexivity|].
  intros H.
  destruct (H two_subjects blank_figure false false 0%nat 1%nat 2%nat
              ["sub01"; "sub02"]%string [[(1 # 2)%Q; (1 # 2)%Q]] _ _ eq_refl)
    as (statistics & Hlast & Hequiv).
  injection Hlast as <-.
  apply Forall2_cons_1 in Hequiv as [Hrow _].
  apply Forall2_cons_1 in Hrow as [Hq _].
  vm_compute in Hq. discriminate Hq.
Qed.

(** ** Sums of rationals *)

Section Sums.
Local Open Scope Q_scope.
Import Aggregator.

Lemma sumQ_cons (q : Q) (l : list Q) : sumQ (q :: l) = q + sumQ l.
Proof. reflexivity. Qed.

Lemma sumQ_fmap_ext {A} (f g : A → Q) (l : list A) :
  (∀ x, x ∈ l → f x == g x) → sumQ (f <$> l) == sumQ (g <$> l).
Proof.
  induction l as [|x l IH]; intros H; [reflexivity|].
  rewrite !fmap_cons, !sumQ_cons.
  rewrite (H x) by apply list_elem_of_here.
  rewrite IH; [reflexivity|]. intros y Hy. apply H. by apply list_elem_of_further.
Qed.

Lemma sumQ_fmap_plus {A} (f g : A → Q) (l : list A) :
  sumQ ((λ x, f x + g x) <$> l) == sumQ (f <$> l) + sumQ (g <$> l).
Proof.
  induction l as [|x l IH]; [reflexivity|].
  rewrite !fmap_cons, !sumQ_cons, IH. ring.
Qed.

Lemma sumQ_fmap_div (d : Q) (l : list Q) :
  sumQ ((λ x, x / d) <$> l) == sumQ l / d.
Proof.
  induction l as [|x l IH]; [reflexivity|].
  rewrite fmap_cons, !sumQ_cons, IH. unfold Qdiv. ring.
Qed.

Lemma sumQ_fmap_const {A} (q : Q) (l : list A) :
  sumQ ((λ _, q) <$> l) == q * inject_Z (Z.of_nat (length l)).
Proof.
  induction l as [|x l IH]; [simpl; ring|].
  rewrite fmap_cons, sumQ_cons, IH.
  replace (Z.of_nat (length (x :: l))) with (1 + Z.of_nat (length l))%Z
    by (simpl length; lia).
  rewrite inject_Z_plus. ring.
Qed.

(** A vector is the sum of its entries taken by index. *)
Lemma sumQ_by_index (l : list Q) :
  sumQ ((λ i, default 0 (l !! i)) <$> seq 0 (length l)) == sumQ l.
Proof.
  induction l as [|q l IH]; [reflexivity|].
  simpl length. rewrite <- cons_seq, fmap_cons, !sumQ_cons. simpl default.
  rewrite <- fmap_S_seq, <- list_fmap_compose.
  rewrite <- IH. reflexivity.
Qed.

(** Summing a row class by class, or subject by subject. *)
Lemma sumQ_exchange (S : nat) (row : list (list Q)) :
  Forall (λ over_subjects, length over_subjects = S) row →
  sumQ (sumQ <$> row)
  == sumQ ((λ i, sumQ (subject_vector row i)) <$> seq 0 S).
Proof.
  induction row as [|over row IH]; intros Hlen.
  - rewrite (sumQ_fmap_const 0). simpl. ring.
  - apply Forall_cons in Hlen as [Hover Hrow].
    rewrite fmap_cons, sumQ_cons, (IH Hrow), <- (sumQ_by_index over), Hover.
    rewrite <- sumQ_fmap_plus. reflexivity.
Qed.
End Sums.

(** C6.  For any positive number [S] of subjects and any accumulator of
    shape nodes x classes x [S] in which, at every node, the alpha
    vector of every subject sums to 1, the mean over the subject axis
    sums to 1 at every node (in exact arithmetic). *)
Theorem mean_of_normalised_alphas (N C S : nat) (statistics : list (list (list Q)))
    (Hshape : has_shape N C S statistics)
    (Hsubjects : (0 < S)%nat)
    (Hone : ∀ n row i, statistics !! n = Some row → (i < S)%nat →
              (Aggregator.sumQ (subject_vector row i) == 1)%Q) :
  ∀ n mean_row, Aggregator.np_mean_axis2 statistics !! n = Some mean_row →
    (Aggregator.sumQ mean_row == 1)%Q.
Proof.
  intros n mean_row Hn. unfold Aggregator.np_mean_axis2 in Hn.
  rewrite list_lookup_fmap in Hn.
  destruct (statistics !! n) as [row|] eqn:Hrow; simpl in Hn; [|done].
  injection Hn as <-.
  destruct Hshape as [_ Hrows].
  destruct (proj1 (Forall_lookup _ _) Hrows n row Hrow) as [_ Hcells].
  set (d := inject_Z (Z.of_nat S)).
  assert (Aggregator.np_mean <$> row
          = (λ x, (x / d)%Q) <$> (Aggregator.sumQ <$> row)) as ->.
  { rewrite <- list_fmap_compose. apply list_fmap_ext. intros c over Hover. simpl.
    unfold Aggregator.np_mean.
    by rewrite (proj1 (Forall_lookup _ _) Hcells c over Hover). }
  rewrite sumQ_fmap_div, (sumQ_exchange S row Hcells).
  rewrite (sumQ_fmap_ext _ (λ _, 1%Q)).
  - rewrite sumQ_fmap_const, length_seq. fold d. field.
    unfold d. intros Hd. apply (Qeq_bool_neq (inject_Z (Z.of_nat S)) 0); [|exact Hd].
    unfold Qeq_bool. simpl. destruct S; [lia|]. reflexivity.
  - intros i Hi. apply (Hone n row i Hrow). apply elem_of_seq in Hi. lia.
Qed.

Lemma mean_of_normalised_alphas_witness :
  (Aggregator.sumQ [(1 # 2)%Q; (1 # 2)%Q] == 1)%Q.
Proof.
  apply (mean_of_normalised_alphas 1 2 2 [[[1%Q; 0%Q]; [0%Q; 1%Q]]]) with (n := 0%nat).
  - split; [reflexivity|]. repeat constructor.
  - lia.
  - intros [|n] row i Hrow Hi; [|done]. injection Hrow as <-.
    destruct i as [|[|i]]; [reflexivity..|lia].
  - reflexivity.
Defined.

Lemma missing_labels_abort_witness :
  main Z.add id small_world required_only
  = ([WriteSubject "sub01"; WriteSubject "sub02"], inl TypeError_NoneType_not_iterable).
Proof.
  apply (missing_labels_abort Z.add id small_world required_only); reflexivity.
Defined.

(** * Further properties of the Label Encoder *)

Lemma voxel_multi_range labels v :
  Forall (λ c, 0 ≤ c ≤ 65535) (voxel_multi labels (length labels + 1) v).
Proof.
  rewrite voxel_multi_eq. apply Forall_cons. split.
  - unfold uint16. pose proof (Z.mod_pos_bound (65535 - sumZ ((λ label, 65535 * indicator v label) <$> labels)) (2 ^ 16)).
    lia.
  - apply Forall_fmap, Forall_forall. intros label _. simpl.
    destruct (indicator_cases v label) as [[_ ->]|[_ ->]]; lia.
Qed.

Lemma f64_to_u16_range x : 0 ≤ f64_to_u16 x ≤ 65535.
Proof. unfold f64_to_u16. pose proof (Z.mod_pos_bound x (2 ^ 16)). lia. Qed.

(** X2.  The encoding has the voxel grid of the input, every voxel
    carries as many channels as there are classes, and every channel
    value lies in 0 .. 65535. *)
Theorem encoder_output_shape (multi_structure : bool) (labels : list Z)
    (img : Vol Z) (x y z : nat) :
  let m := label_encoder multi_structure labels img in
  (is_Some (vget m x y z) ↔ is_Some (vget img x y z))
  ∧ ∀ cs, vget m x y z = Some cs →
      length cs = Labels.number_of_classes multi_structure labels
      ∧ Forall (λ c, 0 ≤ c ≤ 65535) cs.
Proof.
  cbv zeta. unfold label_encoder. destruct multi_structure.
  - unfold Labels.number_of_classes. rewrite vget_segmentation_map_multi.
    split; [apply fmap_is_Some|].
    intros cs Hcs. destruct (vget img x y z) as [v|]; simpl in Hcs; [|done].
    injection Hcs as <-. split; [|apply voxel_multi_range].
    rewrite voxel_multi_eq. simpl. rewrite length_fmap. lia.
  - unfold Labels.number_of_classes. rewrite vget_segmentation_map_binary.
    split; [apply fmap_is_Some|].
    intros cs Hcs. destruct (vget img x y z) as [v|]; simpl in Hcs; [|done].
    injection Hcs as <-. split; [reflexivity|].
    repeat constructor; apply f64_to_u16_range.
Qed.

Lemma encoder_output_shape_witness :
  length [16; 65519] = 2%nat ∧ Forall (λ c, 0 ≤ c ≤ 65535) [16; 65519].
Proof.
  destruct (encoder_output_shape false [17] [[[17; 0]]] 0 0 0) as [_ Hcs].
  exact (Hcs [16; 65519] eq_refl).
Defined.

Lemma background_residue (k : Z) : uint16 (65535 - 65535 * k) = (k - 1) mod 2 ^ 16.
Proof.
  unfold uint16. replace (65535 - 65535 * k) with ((k - 1) + (- (k - 1)) * 2 ^ 16) by lia.
  apply Z_mod_plus_full.
Qed.

(** X3.  In multi-structure mode a voxel that matches [K] entries of
    the label list gets the background value [(K - 1) mod 2^16], and its
    channels add up to [65535 * K + (K - 1) mod 2^16]: 65535 for no
    match or one match, more than that from two matches on. *)
Theorem multi_structure_background_by_matches (labels : list Z) (img : Vol Z)
    (x y z : nat) (v : Z) (Hv : vget img x y z = Some v) :
  let K := Z.of_nat (matches v labels) in
  ∃ cs,
    vget (label_encoder true labels img) x y z = Some cs
    ∧ cs !! 0%nat = Some ((K - 1) mod 2 ^ 16)
    ∧ sumZ cs = 65535 * K + (K - 1) mod 2 ^ 16.
Proof.
  intros K.
  pose proof (label_encoder_multi_voxel labels img x y z v Hv) as Hget.
  eexists. split; [exact Hget|].
  rewrite sumZ_foreground. fold K. rewrite background_residue.
  split; [reflexivity|].
  change (sumZ (?a :: ?l)) with (a + sumZ l). rewrite sumZ_foreground. fold K. lia.
Qed.

Lemma multi_structure_background_by_matches_witness :
  ∃ cs,
    vget (label_encoder true [7; 7; 7] [[[7; 0]]]) 0 0 0 = Some cs
    ∧ cs !! 0%nat = Some 2
    ∧ sumZ cs = 196607.
Proof.
  exact (multi_structure_background_by_matches [7; 7; 7] [[[7; 0]]] 0 0 0 7 eq_refl).
Defined.

Lemma sumZ_insert_zeros (n i : nat) (a : Z) :
  (i < n)%nat → sumZ (<[i := a]> (replicate n 0)) = a.
Proof.
  revert i. induction n as [|n IH]; intros i Hi; [lia|].
  destruct i as [|i]; simpl.
  - change (sumZ (?b :: ?l)) with (b + sumZ l).
    assert (sumZ (replicate n 0) = 0) as ->; [|lia].
    clear. induction n as [|n IH]; [done|]. simpl.
    change (sumZ (?b :: ?l)) with (b + sumZ l). lia.
  - change (sumZ (?b :: ?l)) with (b + sumZ l). rewrite IH by lia. lia.
Qed.

Lemma foreground_no_match v labels :
  v ∉ labels →
  (λ label, 65535 * indicator v label) <$> labels = replicate (length labels) 0.
Proof.
  induction labels as [|label rest IH]; intros Hnot; [done|].
  apply not_elem_of_cons in Hnot as [Hne Hrest].
  rewrite fmap_cons, (IH Hrest). simpl.
  destruct (indicator_cases v label) as [[? _]|[_ ->]]; [done|]. reflexivity.
Qed.

Lemma foreground_one_match v labels : ∀ i,
  NoDup labels → labels !! i = Some v →
  (λ label, 65535 * indicator v label) <$> labels
  = <[i := 65535]> (replicate (length labels) 0).
Proof.
  induction labels as [|label rest IH]; intros i Hnd Hi; [done|].
  apply NoDup_cons in Hnd as [Hnot Hnd]. rewrite fmap_cons.
  destruct i as [|i]; simpl in Hi.
  - injection Hi as ->. rewrite (foreground_no_match _ _ Hnot). simpl.
    destruct (indicator_cases v v) as [[_ ->]|[? _]]; [|done]. reflexivity.
  - rewrite (IH i Hnd Hi). simpl.
    destruct (indicator_cases v label) as [[-> _]|[_ ->]]; [|reflexivity].
    destruct Hnot. by apply list_elem_of_lookup_2 in Hi.
Qed.

(** X4.  In multi-structure mode with pairwise distinct labels every
    voxel is encoded one-hot: the vector of [L + 1] channels is zero but
    for one entry 65535, in channel [i + 1] when the voxel carries
    [labels[i]] and in channel 0 when it carries none of the labels. *)
Theorem multi_structure_one_hot (labels : list Z) (img : Vol Z) (x y z : nat) (v : Z)
    (Hdistinct : NoDup labels)
    (Hv : vget img x y z = Some v) :
  ∃ cs,
    vget (label_encoder true labels img) x y z = Some cs
    ∧ (v ∉ labels → cs = <[0%nat := 65535]> (replicate (length labels + 1) 0))
    ∧ (∀ i, labels !! i = Some v →
         cs = <[(i + 1)%nat := 65535]> (replicate (length labels + 1) 0)).
Proof.
  pose proof (label_encoder_multi_voxel labels img x y z v Hv) as Hget.
  eexists. split; [exact Hget|].
  replace (length labels + 1)%nat with (S (length labels)) by lia. split.
  - intros Hnot. rewrite (foreground_no_match _ _ Hnot). simpl. f_equal.
    assert (sumZ (replicate (length labels) 0) = 0) as ->; [|reflexivity].
    induction (length labels) as [|n IH]; [done|]. simpl.
    change (sumZ (?b :: ?l)) with (b + sumZ l). lia.
  - intros i Hi. rewrite (foreground_one_match _ _ _ Hdistinct Hi).
    replace (i + 1)%nat with (S i) by lia. simpl. f_equal.
    rewrite sumZ_insert_zeros; [reflexivity|]. by apply lookup_lt_Some in Hi.
Qed.

Lemma multi_structure_one_hot_witness :
  ∃ cs,
    vget (label_encoder true [10; 20; 30] [[[0; 20]]]) 0 0 1 = Some cs
    ∧ cs = [0; 0; 65535; 0].
Proof.
  destruct (multi_structure_one_hot [10; 20; 30] [[[0; 20]]] 0 0 1 20)
    as (cs & Hcs & _ & Hhot).
  - apply (bool_decide_unpack _). by vm_compute.
  - reflexivity.
  - exists cs. split; [exact Hcs|]. exact (Hhot 1%nat eq_refl).
Defined.

(** X5.  On a volume holding only the values 0 and 1, the binary
    encoding coincides voxel by voxel with the multi-structure encoding
    for the single label 1, whatever label list the binary run was
    given. *)
Theorem binary_is_multi_structure_of_label_one (labels : list Z) (img : Vol Z)
    (Hmask : ∀ x y z v, vget img x y z = Some v → v = 0 ∨ v = 1) :
  ∀ x y z,
    vget (label_encoder false labels img) x y z
    = vget (label_encoder true [1] img) x y z.
Proof.
  intros x y z. unfold label_encoder, Labels.number_of_classes.
  rewrite vget_segmentation_map_binary, vget_segmentation_map_multi.
  destruct (vget img x y z) as [v|] eqn:Hv; simpl; [|done].
  destruct (Hmask _ _ _ _ Hv) as [-> | ->]; reflexivity.
Qed.

Lemma binary_is_multi_structure_of_label_one_witness :
  vget (label_encoder false [17] [[[0; 1]; [1; 0]]]) 0 1 0
  = vget (label_encoder true [1] [[[0; 1]; [1; 0]]]) 0 1 0.
Proof.
  apply (binary_is_multi_structure_of_label_one [17] [[[0; 1]; [1; 0]]]).
  intros [|[|?]] [|[|?]] [|[|?]] v'; vm_compute; intros [= <-]; lia.
Defined.



(** * Further properties of main *)

#[global] Instance string_le_total : Total string_le.
Proof. intros a b. apply String.leb_total. Qed.

(** X6.  The subjects main works on are the lines of the subjects file,
    or else the directories found under the subjects directory, put in
    order: the list is sorted and is a rearrangement of what was read,
    none lost and none added. *)
Theorem subject_list_sorted_permutation {F Transform ModelK : Type}
    (w : World (F:=F) (Transform:=Transform) (ModelK:=ModelK)) (args : Args) :
  Sorted string_le (subject_list w args)
  ∧ subject_list w args
    ≡ₚ match subjects_file args with
       | Some file => subjects_file_lines w file
       | None => listdir_directories w (subjects_dir args)
       end.
Proof.
  unfold subject_list. split.
  - apply Sorted_merge_sort. apply _.
  - apply merge_sort_Permutation.
Qed.

Lemma read_labels_concat lines : Labels.read_labels lines = mjoin lines.
Proof.
  unfold Labels.read_labels.
  assert (∀ (line acc : list Z),
            foldl (λ labels item, labels ++ [item]) acc line = acc ++ line)
    as Hline.
  { induction line as [|item line IH]; intros acc; simpl.
    - by rewrite app_nil_r.
    - rewrite IH, <- app_assoc. reflexivity. }
  assert (∀ acc : list Z,
            foldl (λ labels line, foldl (λ labels item, labels ++ [item]) labels line)
              acc lines = acc ++ mjoin lines) as Hlines.
  { induction lines as [|line lines IH]; intros acc; simpl.
    - by rewrite app_nil_r.
    - rewrite IH, Hline, <- app_assoc. reflexivity. }
  apply (Hlines []).
Qed.

(** X7.  When [--labels_file] is given, the labels are the integers of
    the file in reading order, line after line, and [--labels] is not
    looked at. *)
Theorem labels_file_takes_precedence (cl : CommandLine)
    (labels_file_lines : string → list (list Z)) (file : string)
    (Hfile : given_labels_file cl = Some file) :
  Labels.select (parseArguments cl) labels_file_lines
  = Some (mjoin (labels_file_lines file)).
Proof.
  unfold Labels.select. simpl. rewrite Hfile. by rewrite read_labels_concat.
Qed.

Lemma labels_file_takes_precedence_witness :
  Labels.select
    (parseArguments (command_line None true false false (Some [1; 2]) (Some "l.txt"%string)))
    (λ _, [[10; 20]; []; [30]])
  = Some [10; 20; 30].
Proof.
  exact (labels_file_takes_precedence
           (command_line None true false false (Some [1; 2]) (Some "l.txt"%string))
           (λ _, [[10; 20]; []; [30]]) "l.txt"%string eq_refl).
Defined.

(** ** What a run writes *)

Lemma run_bind_trace {A B} (m : Run A) (k : A → Run B) :
  (m ≫= k).1 = m.1 ++ match m.2 with inl _ => [] | inr a => (k a).1 end.
Proof.
  destruct m as [tr [e|a]]; unfold mbind, run_bind; simpl; [by rewrite app_nil_r|].
  by destruct (k a).
Qed.

Lemma run_bind_result {A B} (m : Run A) (k : A → Run B) :
  (m ≫= k).2 = match m.2 with inl e => inl e | inr a => (k a).2 end.
Proof.
  destruct m as [tr [e|a]]; unfold mbind, run_bind; simpl; [done|].
  by destruct (k a).
Qed.

Lemma Forall_run_bind {A B} (P : Event → Prop) (m : Run A) (k : A → Run B) :
  Forall P m.1 → (∀ a, Forall P (k a).1) → Forall P (m ≫= k).1.
Proof.
  intros Hm Hk. rewrite run_bind_trace. apply Forall_app. split; [done|].
  destruct m.2; [constructor|apply Hk].
Qed.

Lemma omap_silent {B} (f : Event → option B) (P : Event → Prop) tr :
  (∀ ev, P ev → f ev = None) → Forall P tr → omap f tr = [].
Proof.
  intros HP. induction 1 as [|ev tr Hev _ IH]; [done|].
  simpl. rewrite (HP ev Hev). exact IH.
Qed.

Section LevelEvents.
Context {X : Type}.
Variable body : nat → string → Run (list (list Q) * X).
Variable render : option X → list (list Q) → Abort + Vol (list Q).
Variable P : Event → Prop.
Hypothesis body_events : ∀ i subject_dir, Forall P (body i subject_dir).1.
Hypothesis figure_events :
  ∀ level images statistics,
    P (ShowFigure images) ∧ P (SaveAverageFigure level images)
    ∧ P (SaveStatistics level statistics).

Lemma subject_loop_events subjects : ∀ j st,
  Forall P (Aggregator.subject_loop body j subjects st).1.
Proof.
  induction subjects as [|subject_dir rest IH]; intros j st; [constructor|].
  cbn [Aggregator.subject_loop].
  apply Forall_run_bind; [apply body_events|]. intros r.
  apply Forall_run_bind; [constructor|]. intros statistics. apply IH.
Qed.

Lemma epilogue_events show_figs save_average_figs level st :
  Forall P (Aggregator.epilogue render show_figs save_average_figs level st).1.
Proof.
  unfold Aggregator.epilogue.
  destruct (figure_events (level + 1) [] st.1.1) as (_ & _ & Hsave).
  apply Forall_run_bind.
  { destruct show_figs; [|constructor].
    apply Forall_run_bind; [constructor|]. intros images.
    apply Forall_run_bind; [|constructor].
    repeat constructor. apply (figure_events 0 images []). }
  intros a1. apply Forall_run_bind.
  { destruct save_average_figs; [|constructor].
    apply Forall_run_bind; [constructor|]. intros images.
    apply Forall_run_bind; [|constructor].
    repeat constructor. apply (figure_events (level + 1) images []). }
  intros a2. apply Forall_run_bind; [|constructor].
  repeat constructor. exact Hsave.
Qed.

Lemma level_loop_events show_figs save_average_figs level N C subjects mesh_alphas :
  Forall P (Aggregator.level_loop body render show_figs save_average_figs level
              N C subjects mesh_alphas).1.
Proof.
  unfold Aggregator.level_loop.
  apply Forall_run_bind; [apply subject_loop_events|]. intros st.
  apply epilogue_events.
Qed.
End LevelEvents.

Section MainEvents.
Context {F Transform ModelK : Type} (fadd : F → F → F) (of_int : Z → F).
Variable w : World (F:=F) (Transform:=Transform) (ModelK:=ModelK).

Lemma subject_body_events args labels C N level file i subject_dir :
  Forall level_event (subject_body fadd of_int w args labels C N level file i subject_dir).1.
Proof.
  unfold subject_body.
  apply Forall_run_bind; [by repeat constructor|]. intros _.
  apply Forall_run_bind; [constructor|]. intros segmentation_image.
  apply Forall_run_bind; [constructor|]. intros deformations.
  apply Forall_run_bind; [constructor|]. intros node_positions.
  apply Forall_run_bind; [destruct (show_figs args); by repeat constructor|]. intros _.
  apply Forall_run_bind; [destruct (save_figs args); by repeat constructor|]. intros _.
  constructor.
Qed.

Lemma levels_events args labels C subjects mesh_collections : ∀ level,
  Forall level_event (levels fadd of_int w args labels C subjects level mesh_collections).1.
Proof.
  induction mesh_collections as [|file rest IH]; intros level; [constructor|].
  cbn [levels]. apply Forall_run_bind; [|intros _; apply IH].
  apply level_loop_events; [intros; apply subject_body_events|done].
Qed.
End MainEvents.

Lemma omap_fmap_Some {A B} (f : Event → option B) (g : A → Event) (l : list A) :
  (∀ a, f (g a) = None) → omap f (g <$> l) = [].
Proof. intros H. induction l as [|a l IH]; [done|]. csimpl. rewrite H. exact IH. Qed.

Lemma omap_fmap_id {A} (f : Event → option A) (g : A → Event) (l : list A) :
  (∀ a, f (g a) = Some a) → omap f (g <$> l) = l.
Proof. intros H. induction l as [|a l IH]; [done|]. csimpl. rewrite H. by rewrite IH. Qed.

Lemma write_labels_Some ls : Labels.write (Some ls) = (WriteLabel <$> ls, inr ls).
Proof.
  unfold Labels.write. rewrite for_each_emit.
  unfold mbind, run_bind, mret, run_ret. by rewrite app_nil_r.
Qed.

(** X8.  Whatever happens later in the run, the subjects file main
    writes holds the whole sorted subject list, and the labels file
    holds all the labels (it is empty when no labels were given). *)
Theorem header_files_written {F Transform ModelK : Type}
    (fadd : F → F → F) (of_int : Z → F)
    (w : World (F:=F) (Transform:=Transform) (ModelK:=ModelK)) (cl : CommandLine) :
  subjects_written (main fadd of_int w cl).1 = subject_list w (parseArguments cl)
  ∧ labels_written (main fadd of_int w cl).1
    = default [] (Labels.select (parseArguments cl) (labels_file_lines w)).
Proof.
  unfold main. set (args := parseArguments cl).
  rewrite run_bind_trace, for_each_emit. cbn [fst snd].
  rewrite run_bind_trace.
  destruct (Labels.select args (labels_file_lines w)) as [ls|] eqn:Hsel.
  - rewrite write_labels_Some. cbn [fst snd]. rewrite run_bind_trace.
    pose proof (levels_events fadd of_int w args ls
                  (Labels.number_of_classes (multi_structure args) ls)
                  (subject_list w args) (mesh_collections args) 0) as Hlev.
    destruct (levels _ _ _ _ _ _ _ _ _) as [trl r]. cbn [fst snd] in *.
    unfold subjects_written, labels_written. rewrite !omap_app. split.
    + rewrite omap_fmap_id by done. rewrite (omap_fmap_Some _ WriteLabel) by done.
      rewrite (omap_silent _ level_event trl) by (by intros [] || done).
      destruct r; simpl; by rewrite ?app_nil_r.
    + rewrite (omap_fmap_Some _ WriteSubject) by done. rewrite omap_fmap_id by done.
      rewrite (omap_silent _ level_event trl) by (by intros [] || done).
      destruct r; simpl; by rewrite ?app_nil_r.
  - simpl. unfold subjects_written, labels_written. rewrite !omap_app. split.
    + rewrite omap_fmap_id by done. simpl. by rewrite app_nil_r.
    + by rewrite (omap_fmap_Some _ WriteSubject).
Qed.

(** ** The log and the saved statistics *)

Lemma log_lines_app tr1 tr2 : log_lines (tr1 ++ tr2) = log_lines tr1 ++ log_lines tr2.
Proof. apply omap_app. Qed.

Lemma statistics_saved_app tr1 tr2 :
  statistics_saved (tr1 ++ tr2) = statistics_saved tr1 ++ statistics_saved tr2.
Proof. apply omap_app. Qed.

Section LevelLog.
Context {X : Type}.
Variable body : nat → string → Run (list (list Q) * X).
Variable render : option X → list (list Q) → Abort + Vol (list Q).
Variable line : nat → string → nat * nat * nat * string.
Hypothesis body_log : ∀ i subject_dir, log_lines (body i subject_dir).1 = [line i subject_dir].
Hypothesis body_saves_nothing : ∀ i subject_dir, statistics_saved (body i subject_dir).1 = [].

Lemma subject_loop_log subjects : ∀ j st,
  log_lines (Aggregator.subject_loop body j subjects st).1
    `prefix_of` imap (λ i, line (j + i)) subjects
  ∧ (∀ st', (Aggregator.subject_loop body j subjects st).2 = inr st' →
       log_lines (Aggregator.subject_loop body j subjects st).1
       = imap (λ i, line (j + i)) subjects).
Proof.
  induction subjects as [|subject_dir rest IH]; intros j st.
  { split; [apply prefix_nil|done]. }
  cbn [Aggregator.subject_loop].
  rewrite run_bind_trace, run_bind_result, log_lines_app, body_log.
  rewrite imap_cons. replace (j + 0)%nat with j by lia.
  assert (imap ((λ i, line (j + i)) ∘ S) rest = imap (λ i, line (S j + i)) rest) as ->.
  { apply imap_ext. intros i s _. simpl. f_equal. lia. }
  destruct (body j subject_dir).2 as [e|r]; cbv beta iota.
  { split; [apply prefix_cons, prefix_nil|done]. }
  rewrite run_bind_trace, run_bind_result. unfold lift. cbn [fst snd].
  rewrite app_nil_l.
  destruct (Aggregator.store_subject st.1.1 j r.1) as [e|statistics]; cbv beta iota.
  { split; [apply prefix_cons, prefix_nil|done]. }
  destruct (IH (S j) (statistics, r.1, Some r.2)) as [Hprefix Hfull].
  split; [by apply prefix_cons|]. intros st' Hst'.
  simpl. f_equal. by apply (Hfull st').
Qed.

Lemma subject_loop_saves_nothing subjects j st :
  statistics_saved (Aggregator.subject_loop body j subjects st).1 = [].
Proof.
  apply (omap_silent _ (λ ev, match ev with SaveStatistics _ _ => False | _ => True end)).
  { by intros []. }
  apply subject_loop_events. intros i s.
  pose proof (body_saves_nothing i s) as H. unfold statistics_saved in H.
  induction ((body i s).1) as [|ev tr IHtr]; [constructor|].
  simpl in H. destruct ev; constructor; done || by apply IHtr.
Qed.

Lemma epilogue_log show_figs save_average_figs level st :
  log_lines (Aggregator.epilogue render show_figs save_average_figs level st).1 = [].
Proof.
  apply (omap_silent _ (λ ev, match ev with LogSubject _ _ _ _ => False | _ => True end)).
  { by intros []. }
  by apply epilogue_events.
Qed.

Lemma epilogue_saved show_figs save_average_figs level st tr final :
  Aggregator.epilogue render show_figs save_average_figs level st = (tr, inr final) →
  statistics_saved tr = [((level + 1)%nat, st.1.1)].
Proof.
  unfold Aggregator.epilogue.
  destruct show_figs, save_average_figs; simpl;
    repeat (destruct (render _ _) as [e|images]; simpl; [done|]);
    intros [= <- <-]; done.
Qed.

Lemma level_loop_log show_figs save_average_figs level N C subjects mesh_alphas :
  let r := Aggregator.level_loop body render show_figs save_average_figs level
             N C subjects mesh_alphas in
  log_lines r.1 `prefix_of` imap line subjects
  ∧ (∀ final, r.2 = inr final →
       log_lines r.1 = imap line subjects
       ∧ ∃ statistics, statistics_saved r.1 = [((level + 1)%nat, statistics)]
                       ∧ has_shape N C (length subjects) statistics).
Proof.
  unfold Aggregator.level_loop. cbv zeta.
  rewrite run_bind_trace, run_bind_result.
  set (st0 := (Aggregator.np_zeros N C (length subjects), mesh_alphas, None)).
  destruct (subject_loop_log subjects 0 st0) as [Hprefix Hfull].
  pose proof (subject_loop_saves_nothing subjects 0 st0) as Hnone.
  destruct (Aggregator.subject_loop body 0 subjects st0) as [tr1 [e|st]] eqn:Hloop;
    cbn [fst snd] in *.
  { rewrite app_nil_r. split; [exact Hprefix|done]. }
  rewrite log_lines_app, statistics_saved_app.
  rewrite epilogue_log, app_nil_r, (Hfull st eq_refl), Hnone. split; [done|].
  intros final Hfinal. split; [done|].
  destruct (Aggregator.epilogue render show_figs save_average_figs level st)
    as [tr2 r2] eqn:Hepi. simpl in Hfinal. subst r2.
  exists st.1.1. split; [exact (epilogue_saved _ _ _ _ _ _ Hepi)|].
  destruct (subject_loop_spec body N C (length subjects) subjects 0 st0 tr1 st
              (has_shape_np_zeros _ _ _) ltac:(simpl; lia) Hloop) as [Hshape _].
  exact Hshape.
Qed.
End LevelLog.

Section MainLog.
Context {F Transform ModelK : Type} (fadd : F → F → F) (of_int : Z → F).
Variable w : World (F:=F) (Transform:=Transform) (ModelK:=ModelK).

(** One subject: its line in the log, then at most its figures. *)
Lemma subject_body_trace args labels C N level file i subject_dir :
  ∃ figures,
    (subject_body fadd of_int w args labels C N level file i subject_dir).1
    = LogSubject (level + 1) (i + 1) N subject_dir :: figures
    ∧ Forall figure_event figures.
Proof.
  unfold subject_body. rewrite run_bind_trace. cbn [emit fst snd app].
  eexists. split; [reflexivity|].
  apply Forall_run_bind; [constructor|]. intros segmentation_image.
  apply Forall_run_bind; [constructor|]. intros deformations.
  apply Forall_run_bind; [constructor|]. intros node_positions.
  apply Forall_run_bind; [destruct (show_figs args); by repeat constructor|]. intros _.
  apply Forall_run_bind; [destruct (save_figs args); by repeat constructor|]. intros _.
  constructor.
Qed.

Lemma subject_body_log args labels C N level file i subject_dir :
  log_lines (subject_body fadd of_int w args labels C N level file i subject_dir).1
  = [((level + 1)%nat, (i + 1)%nat, N, subject_dir)].
Proof.
  destruct (subject_body_trace args labels C N level file i subject_dir)
    as (figures & -> & Hfig).
  unfold log_lines. simpl. f_equal.
  apply (omap_silent _ figure_event); [by intros []|done].
Qed.

Lemma subject_body_saves_nothing args labels C N level file i subject_dir :
  statistics_saved (subject_body fadd of_int w args labels C N level file i subject_dir).1
  = [].
Proof.
  destruct (subject_body_trace args labels C N level file i subject_dir)
    as (figures & -> & Hfig).
  unfold statistics_saved. simpl.
  apply (omap_silent _ figure_event); [by intros []|done].
Qed.

Lemma levels_log args labels C subjects mesh_collections : ∀ level,
  let r := levels fadd of_int w args labels C subjects level mesh_collections in
  log_lines r.1 `prefix_of` complete_log level (length mesh_collections) subjects
  ∧ (r.2 = inr tt →
       log_lines r.1 = complete_log level (length mesh_collections) subjects
       ∧ length (statistics_saved r.1) = length mesh_collections
       ∧ ∀ k file, mesh_collections !! k = Some file →
           ∃ statistics,
             statistics_saved r.1 !! k = Some ((level + k + 1)%nat, statistics)
             ∧ has_shape (point_count w file) C (length subjects) statistics).
Proof.
  induction mesh_collections as [|file rest IH]; intros level; cbv zeta.
  { split; [apply prefix_nil|]. intros _. split; [done|]. split; [done|].
    intros k f Hk. by rewrite lookup_nil in Hk. }
  cbn [levels]. rewrite run_bind_trace, run_bind_result.
  unfold complete_log. simpl length. rewrite <- cons_seq, fmap_cons. simpl mjoin.
  fold (complete_log (S level) (length rest) subjects).
  destruct (level_loop_log
              (subject_body fadd of_int w args labels C (length subjects) level file)
              (render w file)
              (λ i subject_dir, ((level + 1)%nat, (i + 1)%nat, length subjects, subject_dir))
              (subject_body_log _ _ _ _ _ _)
              (subject_body_saves_nothing _ _ _ _ _ _)
              (show_figs args) (save_average_figs args) level
              (point_count w file) C subjects (alphas_in_file w file))
    as [Hprefix Hfull].
  fold (level_log level subjects) in Hprefix, Hfull.
  destruct (Aggregator.level_loop _ _ _ _ _ _ _ _ _) as [tr1 [e|final]];
    cbn [fst snd] in *.
  { rewrite app_nil_r. split; [by apply prefix_app_r|done]. }
  destruct (Hfull final eq_refl) as (Hlog & statistics & Hsaved & Hshape).
  destruct (IH (S level)) as [Hprefix' Hfull'].
  rewrite log_lines_app, statistics_saved_app, Hlog, Hsaved. split.
  { by apply prefix_app. }
  intros Hok. destruct (Hfull' Hok) as (Hlog' & Hlen' & Hsaved').
  split; [by rewrite Hlog'|]. split; [simpl; by rewrite Hlen'|].
  intros [|k] f Hk; simpl in Hk.
  - injection Hk as <-. exists statistics. split; [|exact Hshape].
    replace (level + 0 + 1)%nat with (level + 1)%nat by lia. reflexivity.
  - destruct (Hsaved' k f Hk) as (statistics' & Hk' & Hshape').
    exists statistics'. split; [|exact Hshape'].
    replace (level + S k + 1)%nat with (S level + k + 1)%nat by lia. exact Hk'.
Qed.
End MainLog.

Section MainRuns.
Context {F Transform ModelK : Type} (fadd : F → F → F) (of_int : Z → F).
Variable w : World (F:=F) (Transform:=Transform) (ModelK:=ModelK).

(** main, once the labels are known. *)
Lemma main_with_labels cl ls :
  Labels.select (parseArguments cl) (labels_file_lines w) = Some ls →
  let args := parseArguments cl in
  let lev := levels fadd of_int w args ls
               (Labels.number_of_classes (multi_structure args) ls)
               (subject_list w args) 0 (mesh_collections args) in
  (main fadd of_int w cl).1
  = (WriteSubject <$> subject_list w args) ++ (WriteLabel <$> ls) ++ lev.1
      ++ match lev.2 with inl _ => [] | inr _ => [LogDone] end
  ∧ (main fadd of_int w cl).2
    = match lev.2 with inl e => inl e | inr _ => inr tt end.
Proof.
  intros Hsel args lev. unfold main. fold args.
  change (Labels.select args (labels_file_lines w) = Some ls) in Hsel.
  rewrite run_bind_trace, run_bind_result, for_each_emit. cbn [fst snd].
  rewrite run_bind_trace, run_bind_result, Hsel, write_labels_Some. cbn [fst snd].
  rewrite run_bind_trace, run_bind_result. fold lev.
  split; [|by destruct lev.2].
  by destruct lev.2.
Qed.

Lemma main_without_labels cl :
  Labels.select (parseArguments cl) (labels_file_lines w) = None →
  main fadd of_int w cl
  = (WriteSubject <$> subject_list w (parseArguments cl),
     inl TypeError_NoneType_not_iterable).
Proof.
  intros Hsel. unfold main. rewrite Hsel, for_each_emit. simpl. by rewrite app_nil_r.
Qed.
End MainRuns.

(** X9.  The subject lines of the log follow the levels and, within a
    level, the sorted subjects, numbered from 1: at any point where the
    run stops they are a beginning of that list, and after a complete
    run they are the whole of it, every subject once per level. *)
Theorem log_follows_levels_and_subjects {F Transform ModelK : Type}
    (fadd : F → F → F) (of_int : Z → F)
    (w : World (F:=F) (Transform:=Transform) (ModelK:=ModelK)) (cl : CommandLine) :
  let args := parseArguments cl in
  let expected := complete_log 0 (length (mesh_collections args)) (subject_list w args) in
  log_lines (main fadd of_int w cl).1 `prefix_of` expected
  ∧ ((main fadd of_int w cl).2 = inr tt → log_lines (main fadd of_int w cl).1 = expected).
Proof.
  intros args expected.
  destruct (Labels.select args (labels_file_lines w)) as [ls|] eqn:Hsel.
  - destruct (main_with_labels fadd of_int w cl ls Hsel) as [-> ->].
    fold args.
    destruct (levels_log fadd of_int w args ls
                (Labels.number_of_classes (multi_structure args) ls)
                (subject_list w args) (mesh_collections args) 0) as [Hprefix Hfull].
    fold expected in Hprefix, Hfull.
    set (lev := levels _ _ _ _ _ _ _ _ _) in *.
    assert (log_lines ((WriteSubject <$> subject_list w args) ++ (WriteLabel <$> ls)
                       ++ lev.1 ++ match lev.2 with inl _ => [] | inr _ => [LogDone] end)
            = log_lines lev.1) as ->.
    { rewrite !log_lines_app. unfold log_lines at 1 2.
      rewrite (omap_fmap_Some _ WriteSubject), (omap_fmap_Some _ WriteLabel) by done.
      simpl. destruct lev.2; simpl; by rewrite app_nil_r. }
    split; [exact Hprefix|].
    destruct lev.2 as [e|[]]; [done|]. intros _. by apply Hfull.
  - rewrite (main_without_labels fadd of_int w cl Hsel). cbn [fst snd].
    split; [|done]. unfold log_lines.
    rewrite (omap_fmap_Some _ WriteSubject) by done. apply prefix_nil.
Qed.

(** X10.  After a complete run there is one saved statistics array per
    mesh collection, in order and numbered from 1, and the array of a
    level has as many rows as its reference mesh has nodes, as many
    columns as there are classes (two without [--multi-structure], one
    more than the labels with it) and as many entries along the third
    axis as there are subjects. *)
Theorem saved_statistics_per_level {F Transform ModelK : Type}
    (fadd : F → F → F) (of_int : Z → F)
    (w : World (F:=F) (Transform:=Transform) (ModelK:=ModelK)) (cl : CommandLine)
    (tr : list Event)
    (Hrun : main fadd of_int w cl = (tr, inr tt)) :
  let args := parseArguments cl in
  ∃ ls,
    Labels.select args (labels_file_lines w) = Some ls
    ∧ length (statistics_saved tr) = length (mesh_collections args)
    ∧ ∀ k file, mesh_collections args !! k = Some file →
        ∃ statistics,
          statistics_saved tr !! k = Some ((k + 1)%nat, statistics)
          ∧ has_shape (point_count w file)
              (if multi_structure args then (length ls + 1)%nat else 2%nat)
              (length (subject_list w args)) statistics.
Proof.
  intros args.
  destruct (Labels.select args (labels_file_lines w)) as [ls|] eqn:Hsel.
  2: { rewrite (main_without_labels fadd of_int w cl Hsel) in Hrun. done. }
  exists ls. split; [done|].
  destruct (main_with_labels fadd of_int w cl ls Hsel) as [Htr Hres].
  rewrite Hrun in Htr, Hres. cbn [fst snd] in Htr, Hres. fold args in Htr, Hres.
  destruct (levels_log fadd of_int w args ls
              (Labels.number_of_classes (multi_structure args) ls)
              (subject_list w args) (mesh_collections args) 0) as [_ Hfull].
  set (lev := levels _ _ _ _ _ _ _ _ _) in *.
  destruct lev.2 as [e|[]]; [done|].
  destruct (Hfull eq_refl) as (_ & Hlen & Hsaved).
  assert (statistics_saved tr = statistics_saved lev.1) as ->.
  { rewrite Htr, !statistics_saved_app. unfold statistics_saved at 1 2 4.
    rewrite (omap_fmap_Some _ WriteSubject), (omap_fmap_Some _ WriteLabel) by done.
    simpl. by rewrite app_nil_r. }
  split; [exact Hlen|]. exact Hsaved.
Qed.

Lemma saved_statistics_per_level_witness :
  ∃ statistics,
    statistics_saved
      (main Z.add id small_world
         (saving_figures
            (command_line (Some "segs"%string) false false false (Some [1]) None))).1
    !! 1%nat = Some (2%nat, statistics)
    ∧ has_shape 1 2 2 statistics.
Proof.
  destruct (saved_statistics_per_level Z.add id small_world
              (saving_figures
                 (command_line (Some "segs"%string) false false false (Some [1]) None))
              _ eq_refl) as (ls & Hsel & _ & Hsaved).
  destruct (Hsaved 1%nat "atlas_level2.txt.gz"%string eq_refl) as (statistics & Hk & Hshape).
  exists statistics. split; [exact Hk|exact Hshape].
Defined.

Section NoSubjects.
Context {F Transform ModelK : Type} (fadd : F → F → F) (of_int : Z → F).
Variable w : World (F:=F) (Transform:=Transform) (ModelK:=ModelK).

Lemma levels_without_subjects args labels C mesh_collections : ∀ level,
  show_figs args = false → save_average_figs args = false →
  levels fadd of_int w args labels C [] level mesh_collections
  = (imap (λ k file, SaveStatistics (level + k + 1)
                       (Aggregator.np_zeros (point_count w file) C 0)) mesh_collections,
     inr tt).
Proof.
  induction mesh_collections as [|file rest IH]; intros level Hshow Hsave; [done|].
  cbn [levels]. unfold Aggregator.level_loop, Aggregator.epilogue.
  rewrite Hshow, Hsave, (IH (S level) Hshow Hsave), imap_cons.
  replace (level + 0 + 1)%nat with (level + 1)%nat by lia.
  assert (∀ k file,
            SaveStatistics (S level + k + 1) (Aggregator.np_zeros (point_count w file) C 0)
            = ((λ k file, SaveStatistics (level + k + 1)
                            (Aggregator.np_zeros (point_count w file) C 0)) ∘ S) k file)
    as Hshift.
  { intros k f. simpl. do 2 f_equal. lia. }
  rewrite <- (imap_ext _ _ rest (λ k f _, Hshift k f)).
  reflexivity.
Qed.
End NoSubjects.

(** X11.  With no subject at all and neither [--show-figs] nor
    [--save-average-figs], a run with labels completes: after the labels
    file it saves, for every mesh collection, a statistics array of
    zeros with an empty third axis, and closes the log. *)
Theorem run_without_subjects {F Transform ModelK : Type}
    (fadd : F → F → F) (of_int : Z → F)
    (w : World (F:=F) (Transform:=Transform) (ModelK:=ModelK)) (cl : CommandLine)
    (ls : list Z)
    (Hlabels : Labels.select (parseArguments cl) (labels_file_lines w) = Some ls)
    (Hnone : subject_list w (parseArguments cl) = [])
    (Hshow : given_show_figs cl = false)
    (Hsave : given_save_average_figs cl = false) :
  main fadd of_int w cl
  = ((WriteLabel <$> ls)
       ++ imap (λ k file,
                  SaveStatistics (k + 1)
                    (Aggregator.np_zeros (point_count w file)
                       (Labels.number_of_classes (given_multi_structure cl) ls) 0))
            (given_mesh_collections cl)
       ++ [LogDone],
     inr tt).
Proof.
  destruct (main_with_labels fadd of_int w cl ls Hlabels) as [Htr Hres].
  rewrite Hnone in Htr, Hres.
  rewrite (levels_without_subjects fadd of_int w) in Htr, Hres by done.
  cbn [fst snd] in Htr, Hres.
  destruct (main fadd of_int w cl) as [tr r]. cbn [fst snd] in Htr, Hres.
  by subst.
Qed.

Lemma run_without_subjects_witness :
  main Z.add id (world_of_subjects [])
    (command_line None true false false (Some [10; 20]) None)
  = ([WriteLabel 10; WriteLabel 20;
      SaveStatistics 1 [[[]; []; []]]; SaveStatistics 2 [[[]; []; []]]; LogDone],
     inr tt).
Proof.
  exact (run_without_subjects Z.add id (world_of_subjects [])
           (command_line None true false false (Some [10; 20]) None) [10; 20]
           eq_refl eq_refl eq_refl eq_refl).
Defined.

(** X12.  With no subject at all, a run asked for [--show-figs] or
    [--save-average-figs] stops at the first mesh collection, where the
    rasterization needs the shape of a segmentation image that was
    never read; by then only the labels file has been written and no
    statistics are saved. *)
Theorem figures_without_subjects_abort {F Transform ModelK : Type}
    (fadd : F → F → F) (of_int : Z → F)
    (w : World (F:=F) (Transform:=Transform) (ModelK:=ModelK)) (cl : CommandLine)
    (ls : list Z) (file : string) (rest : list string)
    (Hlabels : Labels.select (parseArguments cl) (labels_file_lines w) = Some ls)
    (Hnone : subject_list w (parseArguments cl) = [])
    (Hfiles : given_mesh_collections cl = file :: rest)
    (Hfigs : given_show_figs cl || given_save_average_figs cl = true) :
  main fadd of_int w cl = (WriteLabel <$> ls, inl NameError_segmentation_image).
Proof.
  destruct (main_with_labels fadd of_int w cl ls Hlabels) as [Htr Hres].
  rewrite Hnone in Htr, Hres. simpl mesh_collections in Htr, Hres.
  rewrite Hfiles in Htr, Hres. cbn [levels] in Htr, Hres.
  unfold Aggregator.level_loop, Aggregator.epilogue in Htr, Hres.
  simpl show_figs in Htr, Hres. simpl save_average_figs in Htr, Hres.
  destruct (main fadd of_int w cl) as [tr r]. cbn [fst snd] in Htr, Hres.
  destruct (given_show_figs cl), (given_save_average_figs cl); try done;
    simpl in Htr, Hres; subst; by rewrite ?app_nil_r.
Qed.

Lemma figures_without_subjects_abort_witness :
  main Z.add id (world_of_subjects [])
    (command_line None true false true (Some [10; 20]) None)
  = ([WriteLabel 10; WriteLabel 20], inl NameError_segmentation_image).
Proof.
  exact (figures_without_subjects_abort Z.add id (world_of_subjects [])
           (command_line None true false true (Some [10; 20]) None) [10; 20]
           "atlas_level1.txt.gz"%string ["atlas_level2.txt.gz"%string]
           eq_refl eq_refl eq_refl eq_refl).
Defined.

Section FirstSubject.
Context {F Transform ModelK : Type} (fadd : F → F → F) (of_int : Z → F).
Variable w : World (F:=F) (Transform:=Transform) (ModelK:=ModelK).

(** A run whose first segmentation cannot be loaded. *)
Lemma main_stops_at_first_subject cl ls file rest subject_dir others e :
  Labels.select (parseArguments cl) (labels_file_lines w) = Some ls →
  subject_list w (parseArguments cl) = subject_dir :: others →
  given_mesh_collections cl = file :: rest →
  load_segmentation w (parseArguments cl) subject_dir = inl e →
  main fadd of_int w cl
  = ((WriteSubject <$> subject_dir :: others) ++ (WriteLabel <$> ls)
       ++ [LogSubject 1 1 (length (subject_dir :: others)) subject_dir],
     inl e).
Proof.
  intros Hlabels Hsubjects Hfiles Hload.
  destruct (main_with_labels fadd of_int w cl ls Hlabels) as [Htr Hres].
  rewrite Hsubjects in Htr, Hres. simpl mesh_collections in Htr, Hres.
  rewrite Hfiles in Htr, Hres. cbn [levels] in Htr, Hres.
  unfold Aggregator.level_loop in Htr, Hres.
  cbn [Aggregator.subject_loop] in Htr, Hres.
  unfold subject_body in Htr, Hres. rewrite Hload in Htr, Hres.
  destruct (main fadd of_int w cl) as [tr r]. cbn [fst snd] in Htr, Hres.
  simpl in Htr, Hres. by subst.
Qed.
End FirstSubject.

(** X13.  [--segmentations-dir] is optional on the command line, but a
    run that has labels, a mesh collection and a subject stops without
    it at the first subject of the first level, the header files and
    that subject's log line being all it has written: on the path of the
    segmentation (a TypeError) when [--gt-from-FS] or [--save-figs] is
    given, and otherwise already on [nib], which is not bound. *)
Theorem missing_segmentations_dir_abort {F Transform ModelK : Type}
    (fadd : F → F → F) (of_int : Z → F)
    (w : World (F:=F) (Transform:=Transform) (ModelK:=ModelK)) (cl : CommandLine)
    (ls : list Z) (file : string) (rest : list string)
    (subject_dir : string) (others : list string)
    (Hlabels : Labels.select (parseArguments cl) (labels_file_lines w) = Some ls)
    (Hsubjects : subject_list w (parseArguments cl) = subject_dir :: others)
    (Hfiles : given_mesh_collections cl = file :: rest)
    (Hdir : given_segmentations_dir cl = None) :
  main fadd of_int w cl
  = ((WriteSubject <$> subject_dir :: others) ++ (WriteLabel <$> ls)
       ++ [LogSubject 1 1 (length (subject_dir :: others)) subject_dir],
     inl (if given_gt_from_FS cl || given_save_figs cl
          then TypeError_path_is_None else UnboundLocalError_nib)).
Proof.
  apply (main_stops_at_first_subject fadd of_int w cl ls file rest); try done.
  unfold load_segmentation. simpl. rewrite Hdir.
  by destruct (given_gt_from_FS cl), (given_save_figs cl).
Qed.

Lemma missing_segmentations_dir_abort_witness :
  main Z.add id small_world (command_line None false false false (Some [1]) None)
  = ([WriteSubject "sub01"; WriteSubject "sub02"; WriteLabel 1;
      LogSubject 1 1 2 "sub01"], inl UnboundLocalError_nib)
  ∧ main Z.add id small_world
      (saving_figures (command_line None false false false (Some [1]) None))
    = ([WriteSubject "sub01"; WriteSubject "sub02"; WriteLabel 1;
        LogSubject 1 1 2 "sub01"], inl TypeError_path_is_None).
Proof.
  split.
  - exact (missing_segmentations_dir_abort Z.add id small_world
             (command_line None false false false (Some [1]) None) [1]
             "atlas_level1.txt.gz"%string ["atlas_level2.txt.gz"%string]
             "sub01"%string ["sub02"%string] eq_refl eq_refl eq_refl eq_refl).
  - exact (missing_segmentations_dir_abort Z.add id small_world
             (saving_figures (command_line None false false false (Some [1]) None)) [1]
             "atlas_level1.txt.gz"%string ["atlas_level2.txt.gz"%string]
             "sub01"%string ["sub02"%string] eq_refl eq_refl eq_refl eq_refl).
Defined.

(** X19.  Without [--save-figs] no subject is ever processed: a run
    that has labels, a mesh collection and a subject stops at the first
    subject of the first level, after the header files and that
    subject's log line, because [nib] is bound in main only by the
    import made under [--save-figs] (with [--gt-from-FS] and no
    [--segmentations-dir] it stops one line earlier, on the path). *)
Theorem run_needs_save_figs {F Transform ModelK : Type}
    (fadd : F → F → F) (of_int : Z → F)
    (w : World (F:=F) (Transform:=Transform) (ModelK:=ModelK)) (cl : CommandLine)
    (ls : list Z) (file : string) (rest : list string)
    (subject_dir : string) (others : list string)
    (Hlabels : Labels.select (parseArguments cl) (labels_file_lines w) = Some ls)
    (Hsubjects : subject_list w (parseArguments cl) = subject_dir :: others)
    (Hfiles : given_mesh_collections cl = file :: rest)
    (Hfigs : given_save_figs cl = false) :
  main fadd of_int w cl
  = ((WriteSubject <$> subject_dir :: others) ++ (WriteLabel <$> ls)
       ++ [LogSubject 1 1 (length (subject_dir :: others)) subject_dir],
     inl (if given_gt_from_FS cl && bool_decide (given_segmentations_dir cl = None)
          then TypeError_path_is_None else UnboundLocalError_nib)).
Proof.
  apply (main_stops_at_first_subject fadd of_int w cl ls file rest); try done.
  unfold load_segmentation. simpl. rewrite Hfigs.
  destruct (given_gt_from_FS cl); [|done].
  by destruct (given_segmentations_dir cl).
Qed.

Lemma run_needs_save_figs_witness :
  main Z.add id small_world
    (command_line (Some "segs"%string) false false false (Some [1]) None)
  = ([WriteSubject "sub01"; WriteSubject "sub02"; WriteLabel 1;
      LogSubject 1 1 2 "sub01"], inl UnboundLocalError_nib).
Proof.
  exact (run_needs_save_figs Z.add id small_world
           (command_line (Some "segs"%string) false false false (Some [1]) None) [1]
           "atlas_level1.txt.gz"%string ["atlas_level2.txt.gz"%string]
           "sub01"%string ["sub02"%string] eq_refl eq_refl eq_refl eq_refl).
Defined.

(** * Further properties of the Atlas Aggregator *)

(** X15.  A successful store of subject [i] keeps the shape of the
    accumulator, puts the alphas at subject index [i] of every node
    and class, and leaves the entries of all other subjects as they
    were. *)
Theorem store_subject_frame (N C S : nat)
    (statistics statistics' : list (list (list Q))) (i : nat) (alphas : list (list Q))
    (Hshape : has_shape N C S statistics)
    (Hi : (i < S)%nat)
    (Hstore : Aggregator.store_subject statistics i alphas = inr statistics') :
  has_shape N C S statistics'
  ∧ ∀ n c k,
      stored statistics' n c k
      = if decide (k = i) then entry alphas n c else stored statistics n c k.
Proof.
  split; [exact (has_shape_store _ _ _ _ _ _ _ Hshape Hstore)|].
  intros n c k. case_decide as Hk.
  - subst k. exact (stored_store_eq N C S _ i _ _ Hshape Hi Hstore n c).
  - exact (stored_store_ne N C S _ i _ _ k Hshape Hk Hstore n c).
Qed.

Lemma store_subject_frame_witness :
  ∃ statistics',
    Aggregator.store_subject [[[(1 # 2)%Q; 0%Q]; [(1 # 2)%Q; 0%Q]]] 1
      [[(1 # 4)%Q; (3 # 4)%Q]] = inr statistics'
    ∧ stored statistics' 0 1 1 = Some (3 # 4)%Q
    ∧ stored statistics' 0 1 0 = Some (1 # 2)%Q.
Proof.
  exists [[[(1 # 2)%Q; (1 # 4)%Q]; [(1 # 2)%Q; (3 # 4)%Q]]]. split; [reflexivity|].
  destruct (store_subject_frame 1 2 2 [[[(1 # 2)%Q; 0%Q]; [(1 # 2)%Q; 0%Q]]]
              [[[(1 # 2)%Q; (1 # 4)%Q]; [(1 # 2)%Q; (3 # 4)%Q]]] 1
              [[(1 # 4)%Q; (3 # 4)%Q]]) as [_ Hstored].
  - split; [reflexivity|]. repeat constructor.
  - lia.
  - reflexivity.
  - split; [exact (Hstored 0%nat 1%nat 1%nat)|exact (Hstored 0%nat 1%nat 0%nat)].
Defined.

Lemma sumQ_bounds (l : list Q) :
  Forall (λ q, (0 <= q)%Q ∧ (q <= 1)%Q) l →
  (0 <= Aggregator.sumQ l)%Q ∧ (Aggregator.sumQ l <= inject_Z (Z.of_nat (length l)))%Q.
Proof.
  induction 1 as [|q l [H0 H1] _ [IH0 IH1]]; [split; apply Qle_refl|].
  rewrite sumQ_cons.
  replace (Z.of_nat (length (q :: l))) with (1 + Z.of_nat (length l))%Z
    by (simpl length; lia).
  rewrite inject_Z_plus. split.
  - rewrite <- (Qplus_0_l 0). by apply Qplus_le_compat.
  - by apply Qplus_le_compat.
Qed.

(** X16.  With at least one subject, if every stored alpha lies
    between 0 and 1 then so does every entry of the mean over the
    subject axis. *)
Theorem mean_within_unit_interval (N C S : nat) (statistics : list (list (list Q)))
    (Hshape : has_shape N C S statistics)
    (Hsubjects : (0 < S)%nat)
    (Hunit : ∀ n c k q, stored statistics n c k = Some q → (0 <= q)%Q ∧ (q <= 1)%Q) :
  ∀ n c q, entry (Aggregator.np_mean_axis2 statistics) n c = Some q →
    (0 <= q)%Q ∧ (q <= 1)%Q.
Proof.
  intros n c q. rewrite entry_np_mean_axis2.
  destruct (cell statistics n c) as [over|] eqn:Hcell; simpl; [|done].
  intros [= <-]. unfold Aggregator.np_mean.
  rewrite (has_shape_cell_length _ _ _ _ _ _ _ Hshape Hcell).
  assert (Forall (λ q, (0 <= q)%Q ∧ (q <= 1)%Q) over) as Hall.
  { apply Forall_lookup. intros k q Hk. apply (Hunit n c k q).
    unfold stored. by rewrite Hcell. }
  destruct (sumQ_bounds over Hall) as [H0 H1].
  rewrite (has_shape_cell_length _ _ _ _ _ _ _ Hshape Hcell) in H1.
  assert (0 < inject_Z (Z.of_nat S))%Q as Hpos.
  { change 0%Q with (inject_Z 0). rewrite <- Zlt_Qlt. lia. }
  split.
  - apply Qle_shift_div_l; [exact Hpos|]. by rewrite Qmult_0_l.
  - apply Qle_shift_div_r; [exact Hpos|]. by rewrite Qmult_1_l.
Qed.

Lemma mean_within_unit_interval_witness :
  (0 <= 1 # 2)%Q ∧ (1 # 2 <= 1)%Q.
Proof.
  apply (mean_within_unit_interval 1 2 2 [[[1%Q; 0%Q]; [0%Q; 1%Q]]]) with (n := 0%nat) (c := 1%nat).
  - split; [reflexivity|]. repeat constructor.
  - lia.
  - intros [|n] [|[|c]] [|[|k]] q; vm_compute; intros [= <-]; split; discriminate.
  - reflexivity.
Defined.

(** ** How a run ends *)

Section LevelFailure.
Context {X : Type}.
Variable body : nat → string → Run (list (list Q) * X).
Variable render : option X → list (list Q) → Abort + Vol (list Q).
Hypothesis body_saves_nothing : ∀ i subject_dir, statistics_saved (body i subject_dir).1 = [].

Lemma epilogue_failed show_figs save_average_figs level st tr e :
  Aggregator.epilogue render show_figs save_average_figs level st = (tr, inl e) →
  statistics_saved tr = [].
Proof.
  unfold Aggregator.epilogue.
  destruct show_figs, save_average_figs; simpl;
    repeat (destruct (render _ _) as [e'|images]; simpl);
    intros [= <- <-] || intros [=]; done.
Qed.

Lemma level_loop_failed show_figs save_average_figs level N C subjects mesh_alphas e :
  (Aggregator.level_loop body render show_figs save_average_figs level
     N C subjects mesh_alphas).2 = inl e →
  statistics_saved
    (Aggregator.level_loop body render show_figs save_average_figs level
       N C subjects mesh_alphas).1 = [].
Proof.
  unfold Aggregator.level_loop. rewrite run_bind_trace, run_bind_result.
  set (st0 := (Aggregator.np_zeros N C (length subjects), mesh_alphas, None)).
  pose proof (subject_loop_saves_nothing body body_saves_nothing subjects 0 st0) as Hnone.
  destruct (Aggregator.subject_loop body 0 subjects st0) as [tr1 [e1|st]];
    cbn [fst snd] in *.
  - intros _. by rewrite app_nil_r.
  - rewrite statistics_saved_app, Hnone.
    destruct (Aggregator.epilogue render show_figs save_average_figs level st)
      as [tr2 [e2|final]] eqn:Hepi; cbn [fst snd]; [|done].
    intros _. exact (epilogue_failed _ _ _ _ _ _ Hepi).
Qed.
End LevelFailure.

Section MainEnds.
Context {F Transform ModelK : Type} (fadd : F → F → F) (of_int : Z → F).
Variable w : World (F:=F) (Transform:=Transform) (ModelK:=ModelK).

Lemma levels_saved_count args labels C subjects mesh_collections : ∀ level,
  let r := levels fadd of_int w args labels C subjects level mesh_collections in
  (length (statistics_saved r.1) ≤ length mesh_collections)%nat
  ∧ ∀ e, r.2 = inl e → (length (statistics_saved r.1) < length mesh_collections)%nat.
Proof.
  induction mesh_collections as [|file rest IH]; intros level; cbv zeta.
  { split; [done|]. intros e He. done. }
  cbn [levels]. rewrite run_bind_trace, run_bind_result.
  pose proof (level_loop_failed
                (subject_body fadd of_int w args labels C (length subjects) level file)
                (render w file)
                (subject_body_saves_nothing fadd of_int w _ _ _ _ _ _)
                (show_figs args) (save_average_figs args) level
                (point_count w file) C subjects (alphas_in_file w file)) as Hfailed.
  destruct (level_loop_log
              (subject_body fadd of_int w args labels C (length subjects) level file)
              (render w file)
              (λ i subject_dir, ((level + 1)%nat, (i + 1)%nat, length subjects, subject_dir))
              (subject_body_log fadd of_int w _ _ _ _ _ _)
              (subject_body_saves_nothing fadd of_int w _ _ _ _ _ _)
              (show_figs args) (save_average_figs args) level
              (point_count w file) C subjects (alphas_in_file w file))
    as [_ Hfull].
  destruct (Aggregator.level_loop _ _ _ _ _ _ _ _ _) as [tr1 [e1|final]];
    cbn [fst snd] in *.
  - rewrite app_nil_r, (Hfailed e1 eq_refl). simpl. split; [lia|]. intros; lia.
  - destruct (Hfull final eq_refl) as (_ & statistics & Hsaved & _).
    destruct (IH (S level)) as [Hle Hlt].
    rewrite statistics_saved_app, Hsaved. simpl. split; [lia|].
    intros e He. specialize (Hlt e He). lia.
Qed.
End MainEnds.

(** X17.  The log is closed with its last line exactly when the run
    completes: a run that stops on an error never writes it. *)
Theorem log_closed_iff_complete {F Transform ModelK : Type}
    (fadd : F → F → F) (of_int : Z → F)
    (w : World (F:=F) (Transform:=Transform) (ModelK:=ModelK)) (cl : CommandLine) :
  (main fadd of_int w cl).2 = inr tt ↔ last (main fadd of_int w cl).1 = Some LogDone.
Proof.
  set (args := parseArguments cl).
  assert (∀ {A} (g : A → Event) (l : list A), (∀ a, g a ≠ LogDone) → LogDone ∉ g <$> l)
    as Hnot.
  { intros A g l Hg Hin. apply list_elem_of_fmap in Hin as (a & Ha & _).
    by apply (Hg a). }
  destruct (Labels.select args (labels_file_lines w)) as [ls|] eqn:Hsel.
  - destruct (main_with_labels fadd of_int w cl ls Hsel) as [-> ->]. fold args.
    pose proof (levels_events fadd of_int w args ls
                  (Labels.number_of_classes (multi_structure args) ls)
                  (subject_list w args) (mesh_collections args) 0) as Hlev.
    destruct (levels _ _ _ _ _ _ _ _ _) as [trl [e|[]]]; cbn [fst snd] in *.
    + split; [done|]. intros Hlast. apply last_Some_elem_of in Hlast.
      rewrite app_nil_r in Hlast.
      apply elem_of_app in Hlast as [Hin|Hin]; [by apply Hnot in Hin|].
      apply elem_of_app in Hin as [Hin|Hin].
      * by apply Hnot in Hin.
      * by apply (proj1 (Forall_forall _ _) Hlev) in Hin.
    + split; [|done]. intros _. by rewrite !app_assoc, last_snoc.
  - rewrite (main_without_labels fadd of_int w cl Hsel). cbn [fst snd].
    split; [done|]. intros Hlast. apply last_Some_elem_of in Hlast.
    by apply Hnot in Hlast.
Qed.

(** X18.  The statistics arrays saved by a run never outnumber the
    mesh collections, and with at least one mesh collection they reach
    that number exactly when the run completes: a level that stops on
    an error saves nothing. *)
Theorem statistics_saved_iff_complete {F Transform ModelK : Type}
    (fadd : F → F → F) (of_int : Z → F)
    (w : World (F:=F) (Transform:=Transform) (ModelK:=ModelK)) (cl : CommandLine)
    (Hfiles : given_mesh_collections cl ≠ []) :
  let saved := statistics_saved (main fadd of_int w cl).1 in
  (length saved ≤ length (given_mesh_collections cl))%nat
  ∧ (length saved = length (given_mesh_collections cl)
     ↔ (main fadd of_int w cl).2 = inr tt).
Proof.
  cbv zeta. set (args := parseArguments cl).
  destruct (Labels.select args (labels_file_lines w)) as [ls|] eqn:Hsel.
  - destruct (main_with_labels fadd of_int w cl ls Hsel) as [-> ->]. fold args.
    destruct (levels_saved_count fadd of_int w args ls
                (Labels.number_of_classes (multi_structure args) ls)
                (subject_list w args) (mesh_collections args) 0) as [Hle Hlt].
    change (mesh_collections args) with (given_mesh_collections cl) in *.
    set (lev := levels _ _ _ _ _ _ _ _ _) in *.
    assert (statistics_saved
              ((WriteSubject <$> subject_list w args) ++ (WriteLabel <$> ls) ++ lev.1
                 ++ match lev.2 with inl _ => [] | inr _ => [LogDone] end)
            = statistics_saved lev.1) as ->.
    { rewrite !statistics_saved_app. unfold statistics_saved at 1 2 4.
      rewrite (omap_fmap_Some _ WriteSubject), (omap_fmap_Some _ WriteLabel) by done.
      destruct lev.2; simpl; by rewrite app_nil_r. }
    split; [exact Hle|].
    destruct lev.2 as [e|[]] eqn:Hres.
    + specialize (Hlt e eq_refl). split; [lia|done].
    + split; [done|]. intros _.
      destruct (levels_log fadd of_int w args ls
                  (Labels.number_of_classes (multi_structure args) ls)
                  (subject_list w args) (given_mesh_collections cl) 0) as [_ Hfull].
      fold lev in Hfull. rewrite Hres in Hfull.
      by destruct (Hfull eq_refl) as (_ & Hlen & _).
  - rewrite (main_without_labels fadd of_int w cl Hsel). cbn [fst snd].
    unfold statistics_saved. rewrite (omap_fmap_Some _ WriteSubject) by done.
    simpl. split; [lia|]. split; [|done].
    destruct (given_mesh_collections cl); [done|simpl; lia].
Qed.

Lemma statistics_saved_iff_complete_witness :
  length (statistics_saved
            (main Z.add id small_world
               (command_line None false false false (Some [1]) None)).1)
  = 2%nat
  ↔ (main Z.add id small_world
       (command_line None false false false (Some [1]) None)).2 = inr tt.
Proof.
  apply (statistics_saved_iff_complete Z.add id small_world
           (command_line None false false false (Some [1]) None)).
  discriminate.
Defined.
